(** * plugin-aws-networking-security: the evaluation pipeline of [Eval]

    A shallow embedding of the three revisions of [main.go] that the
    repository carries:

    - [Main_go]   : [src/main.go], one assessment result per
                    (security group, policy) pair, published with
                    [apiHelper.CreateResult];
    - [Part_001]  : the revision that hands label sets and subjects to a
                    policy processor and publishes observations and findings
                    per security group;
    - [Part_000]  : the revision that walks the security groups through the
                    iterator [getSecurityGroups] and publishes evidence.

    Everything outside the repository (the AWS SDK, the policy manager, the
    clock, the UUID generator, the agent's API helper, the logger) is an
    external collaborator.  Each one is a field of the class [Externals]: a
    transition on an abstract [World], so that two calls with the same
    arguments may answer differently.  Every call of a collaborator is also
    written to an event trace, which is what the theorems about "what the run
    did" speak about. *)

From Stdlib Require Import ZArith Lia.
From stdpp Require Import gmap strings list pretty.

Open Scope string_scope.
Open Scope list_scope.
Set Warnings "-register-all".

(** ** Go values *)

(** An [error] value; [nil] is [None].  [errors.Join] wraps the non-nil
    arguments, in order, into one joined error and returns [nil] when there
    is none. *)
Inductive error : Type :=
  | ErrorString (msg : string)
  | JoinError (errs : list error).

Abbreviation goerror := (option error).

Definition errors_Join (errs : list goerror) : goerror :=
  match omap id errs with
  | [] => None
  | es => Some (JoinError es)
  end.

(** A value returned by a Go function, or the panic that replaced it. *)
Inductive Res (A : Type) : Type :=
  | Returned (a : A)
  | Panicked (reason : string).
Arguments Returned {A} a.
Arguments Panicked {A} reason.

Definition nil_dereference : string :=
  "runtime error: invalid memory address or nil pointer dereference".

(** [aws.ToString]: the pointed-to string, or the empty string for [nil]. *)
Definition aws_ToString (p : option string) : string :=
  match p with
  | Some s => s
  | None => ""
  end.

(** [*p] on a [*string]. *)
Definition deref (p : option string) : Res string :=
  match p with
  | Some s => Returned s
  | None => Panicked nil_dereference
  end.

(** [fmt.Sprintf("%d", n)] for a length. *)
Definition fmt_d (n : nat) : string := pretty n.

(** ** The provider's resource: [types.SecurityGroup] of the AWS SDK

    Only the fields the plugin reads.  Every scalar field of the SDK type is
    a pointer, hence optional. *)
Record IpPermission : Type := {
  FromPort : option Z;
  ToPort : option Z;
  IpProtocol : option string;
  IpRanges : list string;
}.

Record SecurityGroup : Type := {
  GroupId : option string;
  GroupName : option string;
  VpcId : option string;
  SgIpPermissions : list IpPermission;
  SgIpPermissionsEgress : list IpPermission;
}.

Definition zero_SecurityGroup : SecurityGroup :=
  {| GroupId := None; GroupName := None; VpcId := None;
     SgIpPermissions := []; SgIpPermissionsEgress := [] |}.

Record DescribeSecurityGroupsOutput : Type := {
  SecurityGroups : list SecurityGroup;
}.

(** ** The policy manager's verdict: [policyManager.Result] *)
Module policyManager.
Record Link : Type := { Text : string; URL : string }.

Record Risk : Type := {
  RiskTitle : string;
  RiskDescription : string;
  RiskStatement : string;
  Links : list Link;
}.

Record Violation : Type := {
  Title : string;
  Description : string;
  Remarks : string;
}.

Record Policy : Type := { Package : string }.

Record Result : Type := {
  ResultPolicy : Policy;
  Violations : list Violation;
  Risks : list Risk;
}.
End policyManager.

(** ** The agent's wire types: package [proto] *)
Module proto.
Inductive ExecutionStatus : Type :=
  | ExecutionStatus_SUCCESS
  | ExecutionStatus_FAILURE.

Record Timestamp : Type := { Seconds : Z; Nanos : Z }.

Record Link : Type := {
  Href : string;
  Rel : option string;
  Text : option string;
}.

Record Property : Type := { Name : string; Value : string }.

Record Risk : Type := {
  RiskTitle : string;
  RiskDescription : string;
  RiskStatement : string;
  RiskProps : list Property;
  RiskLinks : list Link;
}.

Record RelevantEvidence : Type := { EvidenceDescription : string }.

Record Observation : Type := {
  Uuid : string;
  ObsTitle : option string;
  ObsDescription : string;
  Collected : Timestamp;
  Expires : Timestamp;
  RelevantEvidences : list RelevantEvidence;
  ObsLabels : gmap string string;
}.

Record RelatedObservation : Type := { ObservationUuid : string }.

Record ObjectiveStatus : Type := { State : string }.
Record FindingTarget : Type := { Status : option ObjectiveStatus }.

Record Finding : Type := {
  FindingTitle : string;
  FindingDescription : string;
  FindingRemarks : option string;
  RelatedObservations : list RelatedObservation;
  Target : option FindingTarget;
  FindingLabels : gmap string string;
}.

Record AssessmentLog_Entry : Type := {
  EntryTitle : option string;
  EntryDescription : option string;
  EntryStart : Timestamp;
  EntryEnd : Timestamp;
}.

Record AssessmentResult : Type := {
  Title : string;
  Start : option Timestamp;
  End_ : option Timestamp;
  Observations : list Observation;
  Findings : list Finding;
  Risks : list Risk;
  Logs : list AssessmentLog_Entry;
}.

Record ConfigureRequest : Type := { Config : option (gmap string string) }.
Record ConfigureResponse : Type := {}.

Record EvalRequest : Type := { PolicyPaths : list string }.
Record EvalResponse : Type := { EvalStatus : ExecutionStatus }.

(** The generated getters accept a [nil] receiver. *)
Definition GetConfig (req : option ConfigureRequest) : option (gmap string string) :=
  match req with
  | Some r => Config r
  | None => None
  end.

Definition GetPolicyPaths (req : option EvalRequest) : list string :=
  match req with
  | Some r => PolicyPaths r
  | None => []
  end.
End proto.

(** The state of a finding's target, the two constants of package [runner]. *)
Module runner.
Definition FindingTargetStatusSatisfied : string := "satisfied".
Definition FindingTargetStatusNotSatisfied : string := "not-satisfied".
End runner.

(** ** [runner.CallableAssessmentResult]

    The builder the plugin fills for one (security group, policy) pair.  Each
    [Add...] method appends to the sequence it names. *)
Module CallableAssessmentResult.
Import proto.

Definition New : AssessmentResult :=
  {| Title := ""; Start := None; End_ := None;
     Observations := []; Findings := []; Risks := []; Logs := [] |}.

Definition SetTitle (t : string) (a : AssessmentResult) : AssessmentResult :=
  {| Title := t; Start := Start a; End_ := End_ a;
     Observations := Observations a; Findings := Findings a;
     Risks := Risks a; Logs := Logs a |}.

Definition SetStart (t : Timestamp) (a : AssessmentResult) : AssessmentResult :=
  {| Title := Title a; Start := Some t; End_ := End_ a;
     Observations := Observations a; Findings := Findings a;
     Risks := Risks a; Logs := Logs a |}.

Definition SetEnd (t : Timestamp) (a : AssessmentResult) : AssessmentResult :=
  {| Title := Title a; Start := Start a; End_ := Some t;
     Observations := Observations a; Findings := Findings a;
     Risks := Risks a; Logs := Logs a |}.

Definition AddObservation (o : Observation) (a : AssessmentResult) : AssessmentResult :=
  {| Title := Title a; Start := Start a; End_ := End_ a;
     Observations := Observations a ++ [o]; Findings := Findings a;
     Risks := Risks a; Logs := Logs a |}.

Definition AddFinding (f : Finding) (a : AssessmentResult) : AssessmentResult :=
  {| Title := Title a; Start := Start a; End_ := End_ a;
     Observations := Observations a; Findings := Findings a ++ [f];
     Risks := Risks a; Logs := Logs a |}.

Definition AddRiskEntry (r : Risk) (a : AssessmentResult) : AssessmentResult :=
  {| Title := Title a; Start := Start a; End_ := End_ a;
     Observations := Observations a; Findings := Findings a;
     Risks := Risks a ++ [r]; Logs := Logs a |}.

Definition AddLogEntry (e : AssessmentLog_Entry) (a : AssessmentResult) : AssessmentResult :=
  {| Title := Title a; Start := Start a; End_ := End_ a;
     Observations := Observations a; Findings := Findings a;
     Risks := Risks a; Logs := Logs a ++ [e] |}.

(** [Result()] hands out what was built. *)
Definition Result (a : AssessmentResult) : AssessmentResult := a.
End CallableAssessmentResult.

(** ** Types handed to the policy processor by the later revisions *)
Module processor.
Record SubjectReference : Type := {
  SubjectRefType : string;
  Attributes : gmap string string;
  SubjectRefTitle : option string;
  SubjectRefProps : list proto.Property;
}.

Record ComponentReference : Type := { ComponentRefIdentifier : string }.

Record OriginActor : Type := {
  ActorTitle : string;
  ActorType : string;
  ActorLinks : list proto.Link;
}.

Record Activity : Type := { ActivityTitle : string }.

Record Component : Type := {
  ComponentIdentifier : string;
  ComponentType : string;
  ComponentTitle : string;
  ComponentDescription : string;
  ComponentPurpose : string;
}.

Record InventoryItem : Type := {
  InventoryIdentifier : string;
  InventoryType : string;
  InventoryTitle : string;
  InventoryProps : list proto.Property;
  ImplementedComponents : list string;
}.

Inductive SubjectType : Type :=
  | SUBJECT_TYPE_COMPONENT
  | SUBJECT_TYPE_INVENTORY_ITEM.

Record Subject : Type := {
  SubjectType_ : SubjectType;
  SubjectIdentifier : string;
}.

Record Evidence : Type := {
  EvidenceUuid : string;
  EvidenceTitle : string;
  EvidenceLabels : gmap string string;
}.
End processor.

(** ** Package [internal] of the repository *)
Module internal.
(** Modelled from the spec: [internal.MergeMaps], whose source is not part
    of the files at hand.  "Merged from a base label set and per-policy
    overrides; later values win on key collision."  [∪] on [gmap] is
    left-biased, so the later map goes on the left. *)
Definition MergeMaps (base overrides : gmap string string) : gmap string string :=
  overrides ∪ base.

(** Modelled from the spec: [internal.StringAddressed], whose source is not
    part of the files at hand; it returns the address of its argument. *)
Definition StringAddressed (s : string) : option string := Some s.
End internal.

(** ** The resource document of [src/main.go]

    [map[string]interface{}] with the three keys the plugin writes. *)
Record Instance : Type := {
  SecurityGroupID : string;
  IpPermissions : list IpPermission;
  IpPermissionsEgress : list IpPermission;
}.

(** ** External collaborators *)
Class Externals : Type := {
  World : Type;

  (** package [time] *)
  Time : Type;
  time_Now : World -> Time * World;
  time_AddDate : Time -> Z -> Z -> Z -> Time;
  time_Unix : Time -> Z;
  time_Nanosecond : Time -> Z;

  (** [uuid.New().String()] *)
  uuid_New : World -> string * World;

  (** [config.LoadDefaultConfig] and the EC2 client made from its result *)
  AwsConfig : Type;
  LoadDefaultConfig : World -> AwsConfig * goerror * World;
  DescribeSecurityGroups :
    AwsConfig -> World -> option DescribeSecurityGroupsOutput * goerror * World;

  (** [policyManager.New(...).Execute] and [Package.PurePackage] *)
  Execute : string -> Instance -> World -> list policyManager.Result * goerror * World;
  PurePackage : string -> string;

  (** [sdk.SeededUUID] and [uuid.UUID.String]; a UUID is a 128-bit number.
      The seeding function computes from its argument alone, so it is a
      function and not a transition of the world. *)
  SeededUUID : gmap string string -> Z * goerror;
  UUID_String : Z -> string;

  (** [apiHelper.CreateResult] *)
  CreateResult :
    string -> gmap string string -> string -> proto.AssessmentResult ->
    World -> goerror * World;

  (** [policyManager.NewPolicyProcessor(...).GenerateResults], the revision
      that returns observations and findings *)
  GenerateResults :
    gmap string string -> list processor.SubjectReference ->
    list processor.ComponentReference -> list processor.OriginActor ->
    list processor.Activity -> string -> SecurityGroup ->
    World -> list proto.Observation * list proto.Finding * goerror * World;
  CreateObservations : list proto.Observation -> World -> goerror * World;
  CreateFindings : list proto.Finding -> World -> goerror * World;

  (** [GenerateResults] and the API helper of the revision that returns
      evidence *)
  GenerateEvidence :
    gmap string string -> list processor.Subject ->
    list processor.Component -> list processor.InventoryItem ->
    list processor.OriginActor -> list processor.Activity -> string ->
    SecurityGroup -> World -> list processor.Evidence * goerror * World;
  CreateEvidence : list processor.Evidence -> World -> goerror * World;
}.

(** A UUID is sixteen bytes. *)
Definition uuid_modulus : Z := 2 ^ 128.


Section Effects.
Context {E : Externals}.

(** [timestamppb.New] *)
Definition timestamppb_New (t : Time) : proto.Timestamp :=
  {| proto.Seconds := time_Unix t; proto.Nanos := time_Nanosecond t |}.

Inductive LogLevel : Type := LevelDebug | LevelError.

(** What a run does to the outside, in the order it does it. *)
Inductive Event : Type :=
  | EvLog (level : LogLevel) (msg : string)
  | EvNow (t : Time)
  | EvUuid (id : string)
  | EvLoadDefaultConfig (err : goerror)
  | EvDescribeSecurityGroups (out : option DescribeSecurityGroupsOutput) (err : goerror)
  | EvExecute (policyPath : string) (input : Instance)
      (results : list policyManager.Result) (err : goerror)
  | EvSeededUUID (seed : gmap string string) (id : Z) (err : goerror)
  | EvCreateResult (streamId : string) (labels : gmap string string)
      (policyPath : string) (result : proto.AssessmentResult) (err : goerror)
  | EvGenerateResults (policyPath : string) (labels : gmap string string)
      (group : SecurityGroup) (err : goerror)
  | EvCreateObservations (obs : list proto.Observation) (err : goerror)
  | EvCreateFindings (finds : list proto.Finding) (err : goerror)
  | EvCreateEvidence (evs : list processor.Evidence) (err : goerror).

(** A computation: from the world before to a value, the events it caused
    and the world after. *)
Definition M (A : Type) : Type := World -> A * list Event * World.

Definition ret {A} (a : A) : M A := fun w => (a, [], w).

Definition bind {A B} (m : M A) (k : A -> M B) : M B :=
  fun w =>
    let '(a, t1, w1) := m w in
    let '(b, t2, w2) := k a w1 in
    (b, t1 ++ t2, w2).

Definition call {A} (op : World -> A * World) (ev : A -> Event) : M A :=
  fun w => let '(a, w') := op w in (a, [ev a], w').

(** [l.logger.Error] and [l.logger.Debug]: the message goes to the trace,
    the key/value arguments are left out. *)
Definition logger_Error (msg : string) : M unit :=
  fun w => (tt, [EvLog LevelError msg], w).

Definition logger_Debug (msg : string) : M unit :=
  fun w => (tt, [EvLog LevelDebug msg], w).

Definition now : M Time := call time_Now EvNow.
Definition new_uuid : M string := call uuid_New EvUuid.
End Effects.

Notation "'do' x <- m ; k" := (bind m (fun x => k))
  (at level 10, x name, m at level 100, k at level 200,
   format "'[v' 'do'  x  <-  m ; '/' k ']'").
Notation "'do' ' p <- m ; k" := (bind m (fun x => match x with p => k end))
  (at level 10, p pattern, m at level 100, k at level 200,
   format "'[v' 'do'  ' p  <-  m ; '/' k ']'").
Notation "m ;; k" := (bind m (fun _ => k))
  (at level 100, k at level 200, right associativity).

(** ** The plugin object

    [CompliancePlugin], [Tag] and [Configure] read the same in the three
    revisions. *)
Record Logger : Type := { Level : LogLevel; JSONFormat : bool }.

Record CompliancePlugin : Type := {
  logger : Logger;
  config : option (gmap string string);
}.

Record Tag : Type := { Key : string; Value : string }.

(** [Configure] stores the request's configuration and answers with an empty
    response and no error.  The first component is the plugin after the
    call. *)
Definition Configure (l : CompliancePlugin) (req : option proto.ConfigureRequest)
  : CompliancePlugin * (option proto.ConfigureResponse * goerror) :=
  ({| logger := logger l; config := proto.GetConfig req |},
   (Some proto.Build_ConfigureResponse, None)).

(** The status and the joined error a run carries from one step to the
    next ([evalStatus] and [errAcc] / [accumulatedErrors]). *)
Record Acc : Type := {
  evalStatus : proto.ExecutionStatus;
  errAcc : goerror;
}.

Definition Acc_init : Acc :=
  {| evalStatus := proto.ExecutionStatus_SUCCESS; errAcc := None |}.

(** [evalStatus = FAILURE; errAcc = errors.Join(errAcc, err)] *)
Definition record_failure (err : goerror) (acc : Acc) : Acc :=
  {| evalStatus := proto.ExecutionStatus_FAILURE;
     errAcc := errors_Join [errAcc acc; err] |}.

(** [accumulatedErrors = errors.Join(accumulatedErrors, err)], the status
    left as it is. *)
Definition record_error (err : goerror) (acc : Acc) : Acc :=
  {| evalStatus := evalStatus acc;
     errAcc := errors_Join [errAcc acc; err] |}.

Section Loops.
Context {E : Externals}.

(** A [for ... range] loop whose body has effects and updates the loop's
    variables [s]. *)
Fixpoint for_range {A S : Type} (body : S -> A -> M S) (xs : list A) (s : S) : M S :=
  match xs with
  | [] => ret s
  | x :: rest => do s' <- body s x; for_range body rest s'
  end.

Definition load_config : M (AwsConfig * goerror) :=
  call LoadDefaultConfig (fun r => EvLoadDefaultConfig r.2).

Definition describe_security_groups (cfg : AwsConfig)
  : M (option DescribeSecurityGroupsOutput * goerror) :=
  call (DescribeSecurityGroups cfg) (fun r => EvDescribeSecurityGroups r.1 r.2).
End Loops.

(** * [src/main.go] *)
Module Main_go.
Import proto CallableAssessmentResult.

Section Eval.
Context {E : Externals}.

(** The label set of the observations and findings of one verdict. *)
Definition artifact_labels (package sgid : string) : gmap string string :=
  {[ "package" := package;
     "type" := "aws";
     "service" := "security-groups";
     "security_group_id" := sgid ]}.

(** The seed of the stream identifier. *)
Definition stream_seed (policyPath sgid : string) : gmap string string :=
  {[ "type" := "aws";
     "_policy" := policyPath;
     "security_group_id" := sgid ]}.

(** The label set handed to [CreateResult]. *)
Definition result_labels (policyPath sgid : string) : gmap string string :=
  {[ "type" := "aws";
     "service" := "security-groups";
     "_policy" := policyPath;
     "security_group_id" := sgid ]}.

(** [fmt.Sprintf("%v", instance["SecurityGroupID"])]: the value is a string. *)
Definition sgid_of (instance : Instance) : string := SecurityGroupID instance.

Definition satisfied_observation (id : string) (collected expires : Time)
    (package sgid : string) : Observation :=
  {| Uuid := id;
     ObsTitle := Some "The plugin succeeded. No compliance issues to report.";
     ObsDescription := "The plugin policies did not return any violations. The configuration is in compliance with policies.";
     Collected := timestamppb_New collected;
     Expires := timestamppb_New (time_AddDate expires 0 1 0);
     RelevantEvidences :=
       [ {| EvidenceDescription :=
              "Policy " +:+ PurePackage package +:+
              " was evaluated, and no violations were found on machineId: " +:+
              "ARN:12345" |} ];
     ObsLabels := artifact_labels package sgid |}.

Definition satisfied_finding (package sgid : string) : Finding :=
  {| FindingTitle := "No violations found on " +:+ PurePackage package;
     FindingDescription :=
       "No violations found on the " +:+ PurePackage package +:+
       " policy within the Template Compliance Plugin.";
     FindingRemarks := None;
     RelatedObservations := [];
     Target := Some {| Status := Some {| State := runner.FindingTargetStatusSatisfied |} |};
     FindingLabels := artifact_labels package sgid |}.

Definition violations_observation (observationUuid : string)
    (collected expires : Time) (package sgid : string) (n : nat) : Observation :=
  {| Uuid := observationUuid;
     ObsTitle :=
       Some ("The plugin found violations for policy " +:+ PurePackage package +:+
             " on machineId: " +:+ "ARN:12345");
     ObsDescription :=
       "Observed " +:+ fmt_d n +:+ " violation(s) for policy " +:+ PurePackage package;
     Collected := timestamppb_New collected;
     Expires := timestamppb_New (time_AddDate expires 0 1 0);
     RelevantEvidences :=
       [ {| EvidenceDescription :=
              "Policy " +:+ PurePackage package +:+ " was evaluated, and " +:+
              fmt_d n +:+ " violations were found" |} ];
     ObsLabels := artifact_labels package sgid |}.

Definition violation_finding (observationUuid package sgid : string)
    (violation : policyManager.Violation) : Finding :=
  {| FindingTitle := policyManager.Title violation;
     FindingDescription := policyManager.Description violation;
     FindingRemarks := Some (policyManager.Remarks violation);
     RelatedObservations := [ {| ObservationUuid := observationUuid |} ];
     Target := Some {| Status := Some {| State := runner.FindingTargetStatusNotSatisfied |} |};
     FindingLabels := artifact_labels package sgid |}.

(** [&proto.Link{Href: link.URL, Text: &link.Text}].  The loop variable is
    fresh in every iteration (Go 1.22 on), so each [Text] points to its own
    link's text. *)
Definition risk_link (link : policyManager.Link) : Link :=
  {| Href := policyManager.URL link;
     Rel := None;
     Text := Some (policyManager.Text link) |}.

Definition risk_entry (risk : policyManager.Risk) : Risk :=
  {| RiskTitle := policyManager.RiskTitle risk;
     RiskDescription := policyManager.RiskDescription risk;
     RiskStatement := policyManager.RiskStatement risk;
     RiskProps := [];
     RiskLinks :=
       fold_left (fun links link => links ++ [risk_link link])
         (policyManager.Links risk) [] |}.

(** The body of [for _, result := range results] (lines 89-199): what one
    verdict adds to the assessment result. *)
Definition Eval_result (instance : Instance) (assessmentResult : AssessmentResult)
    (result : policyManager.Result) : M AssessmentResult :=
  let package := policyManager.Package (policyManager.ResultPolicy result) in
  let violations := policyManager.Violations result in
  do assessmentResult <-
    (if Nat.eqb (length violations) 0 then
       do id <- new_uuid;
       do collected <- now;
       do expires <- now;
       ret (AddFinding (satisfied_finding package (sgid_of instance))
              (AddObservation
                 (satisfied_observation id collected expires package (sgid_of instance))
                 assessmentResult))
     else ret assessmentResult);
  do assessmentResult <-
    (if Nat.ltb 0 (length violations) then
       do observationUuid <- new_uuid;
       do collected <- now;
       do expires <- now;
       ret (fold_left
              (fun a violation =>
                 AddFinding
                   (violation_finding observationUuid package (sgid_of instance) violation) a)
              violations
              (AddObservation
                 (violations_observation observationUuid collected expires package
                    (sgid_of instance) (length violations))
                 assessmentResult))
     else ret assessmentResult);
  ret (fold_left (fun a risk => AddRiskEntry (risk_entry risk) a)
         (policyManager.Risks result) assessmentResult).

Definition execute (policyPath : string) (instance : Instance)
  : M (list policyManager.Result * goerror) :=
  call (Execute policyPath instance)
       (fun r => EvExecute policyPath instance r.1 r.2).

Definition seeded_uuid (seed : gmap string string) : M (Z * goerror) :=
  fun w => let r := SeededUUID seed in (r, [EvSeededUUID seed r.1 r.2], w).

Definition create_result (streamId : string) (labels : gmap string string)
    (policyPath : string) (result : AssessmentResult) : M goerror :=
  call (CreateResult streamId labels policyPath result)
       (fun err => EvCreateResult streamId labels policyPath result err).

(** The body of [for _, policyPath := range request.GetPolicyPaths()]
    (lines 76-240): one (security group, policy) pair. *)
Definition Eval_policy (startTime : Time) (instance : Instance) (acc : Acc)
    (policyPath : string) : M Acc :=
  do '(results, err) <- execute policyPath instance;
  match err with
  | Some _ =>
      logger_Error "policy evaluation failed";;
      ret (record_failure err acc)
  | None =>
      let assessmentResult := SetTitle "Security Group checks - AWS plugin" New in
      do assessmentResult <- for_range (Eval_result instance) results assessmentResult;
      let assessmentResult := SetStart (timestamppb_New startTime) assessmentResult in
      do endTime <- now;
      let assessmentResult := SetEnd (timestamppb_New endTime) assessmentResult in
      do '(streamId, err) <- seeded_uuid (stream_seed policyPath (sgid_of instance));
      match err with
      | Some _ =>
          logger_Error "Failed to seedUUID";;
          ret (record_failure err acc)
      | None =>
          let assessmentResult :=
            AddLogEntry
              {| EntryTitle := Some "Template check";
                 EntryDescription := Some "Template plugin checks completed successfully";
                 EntryStart := timestamppb_New startTime;
                 EntryEnd := timestamppb_New endTime |}
              assessmentResult in
          do err <- create_result (UUID_String streamId)
                      (result_labels policyPath (sgid_of instance))
                      policyPath (Result assessmentResult);
          match err with
          | Some _ =>
              logger_Error "Failed to add assessment result";;
              ret (record_failure err acc)
          | None => ret acc
          end
      end
  end.

(** The stream identifier of a (policy, security group) pair (lines
    206-216 and 226): none when the seeding function reports an error. *)
Definition stream_identifier (policyPath sgid : string) : option string :=
  match SeededUUID (stream_seed policyPath sgid) with
  | (streamId, None) => Some (UUID_String streamId)
  | (_, Some _) => None
  end.

(** The resource document of one security group (lines 63-70). *)
Definition instance_of (group : SecurityGroup) : Instance :=
  {| SecurityGroupID := aws_ToString (GroupId group);
     IpPermissions := SgIpPermissions group;
     IpPermissionsEgress := SgIpPermissionsEgress group |}.

(** The two nested loops of lines 75-241. *)
Definition Eval_loop (startTime : Time) (policyPaths : list string)
    (securityGroups : list Instance) (acc : Acc) : M Acc :=
  for_range
    (fun acc instance => for_range (Eval_policy startTime instance) policyPaths acc)
    securityGroups acc.

Definition Eval (l : CompliancePlugin) (request : option EvalRequest)
  : M (Res (option EvalResponse * goerror)) :=
  do startTime <- now;
  let acc := Acc_init in
  do '(cfg, err) <- load_config;
  do acc <-
    match err with
    | Some _ => logger_Error "unable to load SDK config";; ret (record_failure err acc)
    | None => ret acc
    end;
  do '(output, err) <- describe_security_groups cfg;
  do acc <-
    match err with
    | Some _ => logger_Error "cant list security groups";; ret (record_failure err acc)
    | None => ret acc
    end;
  match output with
  | None => ret (Panicked nil_dereference)
  | Some output =>
      do securityGroups <-
        for_range
          (fun securityGroups group =>
             logger_Debug "SG ID: ";;
             ret (securityGroups ++ [instance_of group]))
          (SecurityGroups output) [];
      logger_Debug "evaluating data";;
      do acc <- Eval_loop startTime (GetPolicyPaths request) securityGroups acc;
      ret (Returned (Some {| EvalStatus := evalStatus acc |}, errAcc acc))
  end.
End Eval.
End Main_go.

(** The actors both later revisions hand to the policy processor. *)
Definition actors : list processor.OriginActor :=
  [ {| processor.ActorTitle := "The Continuous Compliance Framework";
       processor.ActorType := "assessment-platform";
       processor.ActorLinks :=
         [ {| proto.Href := "https://compliance-framework.github.io/docs/";
              proto.Rel := internal.StringAddressed "reference";
              proto.Text := internal.StringAddressed "The Continuous Compliance Framework" |} ] |};
    {| processor.ActorTitle := "Continuous Compliance Framework - Local SSH Plugin";
       processor.ActorType := "tool";
       processor.ActorLinks :=
         [ {| proto.Href := "https://github.com/compliance-framework/plugin-local-ssh";
              proto.Rel := internal.StringAddressed "reference";
              proto.Text :=
                internal.StringAddressed
                  "The Continuous Compliance Framework' Local SSH Plugin" |} ] |} ].

(** * The revision publishing observations and findings ([part_001]) *)
Module Part_001.
Import proto.

Section Eval.
Context {E : Externals}.

(** Sequencing of steps that may panic. *)
Definition res_bind {A B} (r : Res A) (k : A -> Res B) : Res B :=
  match r with
  | Returned a => k a
  | Panicked reason => Panicked reason
  end.

(** [labels] of lines 62-66; [*group.GroupId] panics on a nil pointer. *)
Definition group_labels (group : SecurityGroup) : Res (gmap string string) :=
  res_bind (deref (GroupId group)) (fun id =>
  Returned ({[ "type" := "aws";
               "service" := "security-groups";
               "instance-id" := id ]} : gmap string string)).

(** [subjects] of lines 67-104, the dereferences in the order of the text. *)
Definition group_subjects (group : SecurityGroup) : Res (list processor.SubjectReference) :=
  res_bind (deref (GroupId group)) (fun id1 =>
  res_bind (deref (GroupName group)) (fun name1 =>
  res_bind (deref (VpcId group)) (fun vpc1 =>
  res_bind (deref (GroupId group)) (fun id2 =>
  res_bind (deref (GroupName group)) (fun name2 =>
  res_bind (deref (VpcId group)) (fun vpc2 =>
  res_bind (deref (VpcId group)) (fun vpc3 =>
  Returned
    [ {| processor.SubjectRefType := "aws-security-group";
         processor.Attributes :=
           {[ "type" := "aws";
              "service" := "security-group";
              "instance-id" := id1;
              "instance-name" := name1;
              "vpc-id" := vpc1 ]};
         processor.SubjectRefTitle := internal.StringAddressed "AWS Security Group";
         processor.SubjectRefProps :=
           [ {| Name := "security-group-id"; Value := id2 |};
             {| Name := "security-group-name"; Value := name2 |} ] |};
      {| processor.SubjectRefType := "aws-vpc";
         processor.Attributes :=
           {[ "type" := "aws";
              "service" := "vpc";
              "vpc-id" := vpc2 ]};
         processor.SubjectRefTitle := internal.StringAddressed "AWS VPC";
         processor.SubjectRefProps :=
           [ {| Name := "vpc-id"; Value := vpc3 |} ] |} ]))))))).

Definition components : list processor.ComponentReference :=
  [ {| processor.ComponentRefIdentifier := "common-components/aws-security-group" |} ].

Definition generate_results (labels : gmap string string)
    (subjects : list processor.SubjectReference) (activities : list processor.Activity)
    (policyPath : string) (group : SecurityGroup)
  : M (list Observation * list Finding * goerror) :=
  call (GenerateResults labels subjects components actors activities policyPath group)
       (fun r => EvGenerateResults policyPath labels group r.2).

Definition create_observations (observations : list Observation) : M goerror :=
  call (CreateObservations observations) (EvCreateObservations observations).

Definition create_findings (findings : list Finding) : M goerror :=
  call (CreateFindings findings) (EvCreateFindings findings).

(** The loop variables of the loop over the policies. *)
Record PolicyLoop : Type := {
  observations : list Observation;
  findings : list Finding;
  pacc : Acc;
}.

(** The body of [for _, policyPath := range request.GetPolicyPaths()]
    (lines 135-156). *)
Definition Eval_policy (labels : gmap string string)
    (subjects : list processor.SubjectReference) (group : SecurityGroup)
    (s : PolicyLoop) (policyPath : string) : M PolicyLoop :=
  do '(obs, finds, err) <-
    generate_results
      (internal.MergeMaps labels {[ "_policy_path" := policyPath ]})
      subjects [] policyPath group;
  ret {| observations := observations s ++ obs;
         findings := findings s ++ finds;
         pacc := match err with
                 | Some _ => record_error err (pacc s)
                 | None => pacc s
                 end |}.

(** The loop over the security groups (lines 57-171) and the return that
    follows it. *)
Fixpoint Eval_groups (policyPaths : list string) (groups : list SecurityGroup)
    (acc : Acc) : M (Res (option EvalResponse * goerror)) :=
  match groups with
  | [] => ret (Returned (Some {| EvalStatus := evalStatus acc |}, errAcc acc))
  | group :: rest =>
      match res_bind (group_labels group) (fun labels =>
            res_bind (group_subjects group) (fun subjects =>
            Returned (labels, subjects))) with
      | Panicked reason => ret (Panicked reason)
      | Returned (labels, subjects) =>
          do s <- for_range (Eval_policy labels subjects group) policyPaths
                    {| observations := []; findings := []; pacc := acc |};
          do err <- create_observations (observations s);
          match err with
          | Some _ =>
              logger_Error "Failed to send observations";;
              ret (Returned
                     (Some {| EvalStatus := ExecutionStatus_FAILURE |}, err))
          | None =>
              do err <- create_findings (findings s);
              match err with
              | Some _ =>
                  logger_Error "Failed to send findings";;
                  ret (Returned
                         (Some {| EvalStatus := ExecutionStatus_FAILURE |}, err))
              | None => Eval_groups policyPaths rest (pacc s)
              end
          end
      end
  end.

Definition Eval (l : CompliancePlugin) (request : option EvalRequest)
  : M (Res (option EvalResponse * goerror)) :=
  let acc := Acc_init in
  do '(cfg, err) <- load_config;
  do acc <-
    match err with
    | Some _ => logger_Error "unable to load SDK config";; ret (record_failure err acc)
    | None => ret acc
    end;
  do '(output, err) <- describe_security_groups cfg;
  do acc <-
    match err with
    | Some _ => logger_Error "cant list security groups";; ret (record_failure err acc)
    | None => ret acc
    end;
  match output with
  | None => ret (Panicked nil_dereference)
  | Some output => Eval_groups (GetPolicyPaths request) (SecurityGroups output) acc
  end.
End Eval.
End Part_001.

(** * The revision iterating with [getSecurityGroups] ([part_000]) *)
Module Part_000.
Import proto.

Section Eval.
Context {E : Externals}.

(** [for _, group := range result.SecurityGroups { if !yield(group, nil) { return } }] *)
Fixpoint yield_each {S : Type} (yield : SecurityGroup -> goerror -> S -> M (bool * S))
    (groups : list SecurityGroup) (s : S) : M S :=
  match groups with
  | [] => ret s
  | group :: rest =>
      do '(more, s') <- yield group None s;
      if more then yield_each yield rest s' else ret s'
  end.

(** The iterator: [yield] is the body of the [range] loop that consumes it,
    [S] the variables that body updates; its boolean is false after [break]
    or [return]. *)
Definition getSecurityGroups {S : Type} (client : AwsConfig)
    (yield : SecurityGroup -> goerror -> S -> M (bool * S)) (s : S) : M (Res S) :=
  do '(result, err) <- describe_security_groups client;
  match err with
  | Some _ =>
      do '(_, s') <- yield zero_SecurityGroup err s;
      ret (Returned s')
  | None =>
      match result with
      | None => ret (Panicked nil_dereference)
      | Some result =>
          do s' <- yield_each yield (SecurityGroups result) s;
          ret (Returned s')
      end
  end.

Definition group_labels (group : SecurityGroup) : gmap string string :=
  {[ "provider" := "aws";
     "type" := "security-group";
     "group-id" := aws_ToString (GroupId group);
     "_vpc-id" := aws_ToString (VpcId group) ]}.

Definition components : list processor.Component :=
  [ {| processor.ComponentIdentifier := "common-components/amazon-security-group";
       processor.ComponentType := "service";
       processor.ComponentTitle := "Amazon Security Groups";
       processor.ComponentDescription := "Amazon Security Groups act as virtual firewalls for AWS resources such as EC2 instances and RDS databases. They control inbound and outbound traffic at the instance level using rule-based configurations tied to ports, protocols, and CIDR ranges. Security Groups are stateful and can reference other groups to enforce dynamic trust boundaries within a VPC.";
       processor.ComponentPurpose := "To enforce network segmentation and access control policies at the resource level, providing a configurable and auditable security boundary for cloud-based assets in support of least privilege and Zero Trust architectures." |} ].

Definition inventory (group : SecurityGroup) : list processor.InventoryItem :=
  [ {| processor.InventoryIdentifier := "aws-security-group/" +:+ aws_ToString (GroupId group);
       processor.InventoryType := "firewall";
       processor.InventoryTitle :=
         "Amazon Security Group [" +:+ aws_ToString (GroupId group) +:+ "]";
       processor.InventoryProps :=
         [ {| Name := "group-id"; Value := aws_ToString (GroupId group) |};
           {| Name := "group-name"; Value := aws_ToString (GroupName group) |};
           {| Name := "vpc-id"; Value := aws_ToString (VpcId group) |} ];
       processor.ImplementedComponents := [ "common-components/amazon-security-group" ] |} ].

Definition subjects (group : SecurityGroup) : list processor.Subject :=
  [ {| processor.SubjectType_ := processor.SUBJECT_TYPE_COMPONENT;
       processor.SubjectIdentifier := "common-components/amazon-security-group" |};
    {| processor.SubjectType_ := processor.SUBJECT_TYPE_INVENTORY_ITEM;
       processor.SubjectIdentifier :=
         "aws-security-group/" +:+ aws_ToString (GroupId group) |} ].

Definition generate_results (labels : gmap string string) (group : SecurityGroup)
    (activities : list processor.Activity) (policyPath : string)
  : M (list processor.Evidence * goerror) :=
  call (GenerateEvidence labels (subjects group) components (inventory group)
          actors activities policyPath group)
       (fun r => EvGenerateResults policyPath labels group r.2).

Definition create_evidence (evidences : list processor.Evidence) : M goerror :=
  call (CreateEvidence evidences) (EvCreateEvidence evidences).

(** The variables the body of the loop over the iterator updates, and the
    value of a [return] taken inside it. *)
Record GroupLoop : Type := {
  gacc : Acc;
  returned : option (option EvalResponse * goerror);
}.

(** The body of [for _, policyPath := range request.GetPolicyPaths()]
    (lines 135-154). *)
Definition Eval_policy (group : SecurityGroup)
    (s : list processor.Evidence * Acc) (policyPath : string)
  : M (list processor.Evidence * Acc) :=
  do '(evidence, err) <-
    generate_results (internal.MergeMaps (group_labels group) ∅) group [] policyPath;
  ret (s.1 ++ evidence,
       match err with
       | Some _ => record_error err s.2
       | None => s.2
       end).

(** The body of [for group, err := range getSecurityGroups(ctx, client)]
    (lines 47-162). *)
Definition Eval_group (policyPaths : list string) (group : SecurityGroup)
    (err : goerror) (s : GroupLoop) : M (bool * GroupLoop) :=
  match err with
  | Some _ =>
      logger_Error "unable to get instance";;
      ret (false, {| gacc := record_failure err (gacc s); returned := returned s |})
  | None =>
      do '(evidences, acc) <- for_range (Eval_policy group) policyPaths ([], gacc s);
      do err <- create_evidence evidences;
      match err with
      | Some _ =>
          logger_Error "Failed to send evidences";;
          ret (false,
               {| gacc := acc;
                  returned := Some (Some {| EvalStatus := ExecutionStatus_FAILURE |}, err) |})
      | None => ret (true, {| gacc := acc; returned := returned s |})
      end
  end.

Definition Eval (l : CompliancePlugin) (request : option EvalRequest)
  : M (Res (option EvalResponse * goerror)) :=
  let acc := Acc_init in
  do '(cfg, err) <- load_config;
  do acc <-
    match err with
    | Some _ => logger_Error "unable to load SDK config";; ret (record_failure err acc)
    | None => ret acc
    end;
  do r <- getSecurityGroups cfg (Eval_group (GetPolicyPaths request))
            {| gacc := acc; returned := None |};
  match r with
  | Panicked reason => ret (Panicked reason)
  | Returned s =>
      match returned s with
      | Some early => ret (Returned early)
      | None =>
          ret (Returned (Some {| EvalStatus := evalStatus (gacc s) |}, errAcc (gacc s)))
      end
  end.
End Eval.
End Part_000.

(** * What a trace shows *)
Section Traces.
Context {E : Externals}.

(** The error a call of a collaborator answered with, if any. *)
Definition event_error (e : Event) : goerror :=
  match e with
  | EvLoadDefaultConfig err => err
  | EvDescribeSecurityGroups _ err => err
  | EvExecute _ _ _ err => err
  | EvSeededUUID _ _ err => err
  | EvCreateResult _ _ _ _ err => err
  | EvGenerateResults _ _ _ err => err
  | EvCreateObservations _ err => err
  | EvCreateFindings _ err => err
  | EvCreateEvidence _ err => err
  | EvLog _ _ | EvNow _ | EvUuid _ => None
  end.

(** The errors of a trace, in the order they occurred. *)
Definition errors_of (tr : list Event) : list error := omap event_error tr.

(** The (policy, resource document) pairs handed to the policy evaluator. *)
Definition executed (tr : list Event) : list (string * Instance) :=
  omap (fun e => match e with
                 | EvExecute p i _ _ => Some (p, i)
                 | _ => None
                 end) tr.

(** The pairs whose evaluation answered without an error. *)
Definition evaluated (tr : list Event) : list (string * Instance) :=
  omap (fun e => match e with
                 | EvExecute p i _ None => Some (p, i)
                 | _ => None
                 end) tr.

(** The calls of [CreateResult]: stream identifier, labels, policy. *)
Definition published (tr : list Event) : list (string * gmap string string * string) :=
  omap (fun e => match e with
                 | EvCreateResult sid labels p _ _ => Some (sid, labels, p)
                 | _ => None
                 end) tr.

(** The assessment results handed to [CreateResult]. *)
Definition results_sent (tr : list Event) : list proto.AssessmentResult :=
  omap (fun e => match e with
                 | EvCreateResult _ _ _ r _ => Some r
                 | _ => None
                 end) tr.

(** The answers of the provider call that lists the security groups. *)
Definition fetched (tr : list Event)
  : list (option DescribeSecurityGroupsOutput * goerror) :=
  omap (fun e => match e with
                 | EvDescribeSecurityGroups out err => Some (out, err)
                 | _ => None
                 end) tr.

(** The security groups handed to the policy processor of the later
    revisions, and the batches sent to the agent. *)
Definition processed (tr : list Event) : list (string * SecurityGroup) :=
  omap (fun e => match e with
                 | EvGenerateResults p _ g _ => Some (p, g)
                 | _ => None
                 end) tr.

Definition batches_sent (tr : list Event) : list unit :=
  omap (fun e => match e with
                 | EvCreateObservations _ _ | EvCreateFindings _ _
                 | EvCreateEvidence _ _ => Some tt
                 | _ => None
                 end) tr.

(** The error with which the agent refused a batch of observations,
    findings or evidence. *)
Definition publish_error (e : Event) : goerror :=
  match e with
  | EvCreateObservations _ err | EvCreateFindings _ err | EvCreateEvidence _ err => err
  | _ => None
  end.

Definition publish_errors (tr : list Event) : list error := omap publish_error tr.

(** The identifiers the UUID generator handed out. *)
Definition drawn (tr : list Event) : list string :=
  omap (fun e => match e with
                 | EvUuid id => Some id
                 | _ => None
                 end) tr.

(** The clock readings. *)
Definition readings (tr : list Event) : list Time :=
  omap (fun e => match e with
                 | EvNow t => Some t
                 | _ => None
                 end) tr.

(** The identifiers of the observations of a sequence of assessment
    results. *)
Definition observation_ids (rs : list proto.AssessmentResult) : list string :=
  flat_map (fun r => map proto.Uuid (proto.Observations r)) rs.

(** The accumulator after the errors [errs] were recorded one by one. *)
Definition absorb (acc : Acc) (errs : list error) : Acc :=
  fold_left (fun a e => record_failure (Some e) a) errs acc.

(** [err] is [joined] itself or one of the errors joined into it, at any
    depth (what [errors.Is] finds). *)
Inductive contains_error : error -> error -> Prop :=
  | contains_self (e : error) : contains_error e e
  | contains_joined (es : list error) (e' e : error) :
      e' ∈ es -> contains_error e' e -> contains_error (JoinError es) e.
End Traces.

(** * A scripted world

    A concrete set of collaborators to run the model on: a clock in UTC
    that advances at every reading, a counter for fresh UUIDs, and answers
    of the provider, the evaluator and the sink fixed in advance. *)
Module Scripted.
Open Scope Z_scope.

(** Days since 1970-01-01 of a civil date (proleptic Gregorian calendar),
    and back; months count from 1. *)
Definition days_from_civil (y m d : Z) : Z :=
  let y' := if m <=? 2 then y - 1 else y in
  let era := y' / 400 in
  let yoe := y' - era * 400 in
  let mp := if 2 <? m then m - 3 else m + 9 in
  let doy := (153 * mp + 2) / 5 + d - 1 in
  let doe := yoe * 365 + yoe / 4 - yoe / 100 + doy in
  era * 146097 + doe - 719468.

Definition civil_from_days (z : Z) : Z * Z * Z :=
  let z' := z + 719468 in
  let era := z' / 146097 in
  let doe := z' - era * 146097 in
  let yoe := (doe - doe / 1460 + doe / 36524 - doe / 146096) / 365 in
  let doy := doe - (365 * yoe + yoe / 4 - yoe / 100) in
  let mp := (5 * doy + 2) / 153 in
  let d := doy - (153 * mp + 2) / 5 + 1 in
  let m := if mp <? 10 then mp + 3 else mp - 9 in
  (if m <=? 2 then yoe + era * 400 + 1 else yoe + era * 400, m, d).

Definition ns_per_second : Z := 1000000000.
Definition ns_per_day : Z := 86400 * ns_per_second.

(** [Time.AddDate] in UTC on nanoseconds since the epoch: the civil date is
    moved, the time of day is kept, and a month or day out of range is
    normalised as [time.Date] does (October 31 plus one month is December
    1). *)
Definition AddDate (t years months days : Z) : Z :=
  let day := t / ns_per_day in
  let time_of_day := t mod ns_per_day in
  let '(y, m, d) := civil_from_days day in
  let m0 := m - 1 + months in
  let y' := y + years + m0 / 12 in
  let m' := m0 mod 12 + 1 in
  (days_from_civil y' m' 1 + (d - 1) + days) * ns_per_day + time_of_day.

Record world : Type := {
  clock : Z;
  tick : Z;
  uuids : nat;
  config_answer : goerror;
  describe_answer : option DescribeSecurityGroupsOutput * goerror;
  execute_answer : string -> Instance -> list policyManager.Result * goerror;
  create_result_answer : string -> goerror;
  generate_answer : string -> SecurityGroup -> goerror;
  create_observations_answer : goerror;
  create_findings_answer : goerror;
  create_evidence_answer : goerror;
}.

Definition read_clock (w : world) : Z * world :=
  (clock w,
   {| clock := clock w + tick w; tick := tick w; uuids := uuids w;
      config_answer := config_answer w; describe_answer := describe_answer w;
      execute_answer := execute_answer w;
      create_result_answer := create_result_answer w;
      generate_answer := generate_answer w;
      create_observations_answer := create_observations_answer w;
      create_findings_answer := create_findings_answer w;
      create_evidence_answer := create_evidence_answer w |}).

Definition fresh_uuid (w : world) : string * world :=
  ("uuid-" +:+ pretty (uuids w),
   {| clock := clock w; tick := tick w; uuids := S (uuids w);
      config_answer := config_answer w; describe_answer := describe_answer w;
      execute_answer := execute_answer w;
      create_result_answer := create_result_answer w;
      generate_answer := generate_answer w;
      create_observations_answer := create_observations_answer w;
      create_findings_answer := create_findings_answer w;
      create_evidence_answer := create_evidence_answer w |}).

(** A seeding function for the scripted world: the bytes of the policy path
    and of the security group id, read as a number in base 256, folded into
    128 bits. *)
Definition string_number (s : string) : Z :=
  fold_left (fun n c => n * 256 + Z.of_nat (Ascii.nat_of_ascii c)) (String.list_ascii_of_string s) 0.

Definition seeded (seed : gmap string string) : Z * goerror :=
  ((string_number (default "" (seed !! "_policy")) * 65537 +
    string_number (default "" (seed !! "security_group_id"))) mod uuid_modulus,
   None).

(** The text of a UUID in the scripted world: its binary digits. *)
Fixpoint binary_digits (p : positive) : string :=
  match p with
  | xH => "1"
  | xO q => binary_digits q +:+ "0"
  | xI q => binary_digits q +:+ "1"
  end.

Definition uuid_text (u : Z) : string :=
  match u with
  | Z0 => "0"
  | Zpos p => binary_digits p
  | Zneg p => "-" +:+ binary_digits p
  end.

Definition externals : Externals :=
  {| World := world;
     Time := Z;
     time_Now := read_clock;
     time_AddDate := AddDate;
     time_Unix := fun t => t / ns_per_second;
     time_Nanosecond := fun t => t mod ns_per_second;
     uuid_New := fresh_uuid;
     AwsConfig := unit;
     LoadDefaultConfig := fun w => (tt, config_answer w, w);
     DescribeSecurityGroups := fun _ w => (describe_answer w, w);
     Execute := fun p i w => (execute_answer w p i, w);
     PurePackage := fun p => p;
     SeededUUID := seeded;
     UUID_String := uuid_text;
     CreateResult := fun _ _ p _ w => (create_result_answer w p, w);
     GenerateResults := fun _ _ _ _ _ p g w => ([], [], generate_answer w p g, w);
     CreateObservations := fun _ w => (create_observations_answer w, w);
     CreateFindings := fun _ w => (create_findings_answer w, w);
     GenerateEvidence := fun _ _ _ _ _ _ p g w => ([], generate_answer w p g, w);
     CreateEvidence := fun _ w => (create_evidence_answer w, w) |}.

(** 2024-01-15T00:00:00Z, in nanoseconds. *)
Definition jan15 : Z := days_from_civil 2024 1 15 * ns_per_day.

Definition sg (id : string) : SecurityGroup :=
  {| GroupId := Some id; GroupName := Some "web"; VpcId := Some "vpc-1";
     SgIpPermissions := []; SgIpPermissionsEgress := [] |}.

(** The world at the start of a run: two security groups, no failure. *)
Definition quiet_world : world :=
  {| clock := jan15; tick := 1000; uuids := 0;
     config_answer := None;
     describe_answer := (Some {| SecurityGroups := [sg "sg-1"; sg "sg-2"] |}, None);
     execute_answer := fun _ _ => ([], None);
     create_result_answer := fun _ => None;
     generate_answer := fun _ _ => None;
     create_observations_answer := None;
     create_findings_answer := None;
     create_evidence_answer := None |}.

Definition fetch_error : error := ErrorString "operation error EC2: DescribeSecurityGroups".
Definition publish_error : error := ErrorString "rpc error: agent unavailable".

(** The provider call fails the way the SDK reports a failure: no output,
    an error. *)
Definition fetch_fails : world :=
  {| clock := jan15; tick := 1000; uuids := 0;
     config_answer := None;
     describe_answer := (None, Some fetch_error);
     execute_answer := fun _ _ => ([], None);
     create_result_answer := fun _ => None;
     generate_answer := fun _ _ => None;
     create_observations_answer := None;
     create_findings_answer := None;
     create_evidence_answer := None |}.


(** A security group without a VPC id. *)
Definition sg_without_vpc : SecurityGroup :=
  {| GroupId := Some "sg-classic"; GroupName := Some "legacy"; VpcId := None;
     SgIpPermissions := []; SgIpPermissionsEgress := [] |}.

Definition world_without_vpc : world :=
  {| clock := jan15; tick := 1000; uuids := 0;
     config_answer := None;
     describe_answer := (Some {| SecurityGroups := [sg_without_vpc] |}, None);
     execute_answer := fun _ _ => ([], None);
     create_result_answer := fun _ => None;
     generate_answer := fun _ _ => None;
     create_observations_answer := None;
     create_findings_answer := None;
     create_evidence_answer := None |}.

Definition violation (n : string) : policyManager.Violation :=
  {| policyManager.Title := "Port open: " +:+ n;
     policyManager.Description := "The security group allows " +:+ n;
     policyManager.Remarks := "Restrict " +:+ n |}.

Definition risk : policyManager.Risk :=
  {| policyManager.RiskTitle := "Open ingress";
     policyManager.RiskDescription := "Ingress from anywhere";
     policyManager.RiskStatement := "Exposure to the internet";
     policyManager.Links :=
       [ {| policyManager.Text := "CIS"; policyManager.URL := "https://example.org/cis" |};
         {| policyManager.Text := "AWS"; policyManager.URL := "https://example.org/aws" |} ] |}.

Definition failing_verdict : policyManager.Result :=
  {| policyManager.ResultPolicy := {| policyManager.Package := "compliance_framework.ssh" |};
     policyManager.Violations := [violation "22"; violation "3389"];
     policyManager.Risks := [risk] |}.

Definition passing_verdict : policyManager.Result :=
  {| policyManager.ResultPolicy := {| policyManager.Package := "compliance_framework.ssh" |};
     policyManager.Violations := [];
     policyManager.Risks := [risk] |}.

Definition instance1 : Instance :=
  {| SecurityGroupID := "sg-1"; IpPermissions := []; IpPermissionsEgress := [] |}.

(** Every evaluation answers with a failing and a passing verdict. *)
Definition busy_world : world :=
  {| clock := jan15; tick := 1000; uuids := 0;
     config_answer := None;
     describe_answer := (Some {| SecurityGroups := [sg "sg-1"; sg "sg-2"] |}, None);
     execute_answer := fun _ _ => ([failing_verdict; passing_verdict], None);
     create_result_answer := fun _ => None;
     generate_answer := fun _ _ => None;
     create_observations_answer := None;
     create_findings_answer := None;
     create_evidence_answer := None |}.

Definition evaluation_error : error := ErrorString "rego: policy does not compile".

(** The policy processor fails on every pair. *)
Definition evaluation_fails : world :=
  {| clock := jan15; tick := 1000; uuids := 0;
     config_answer := None;
     describe_answer := (Some {| SecurityGroups := [sg "sg-1"] |}, None);
     execute_answer := fun _ _ => ([], Some evaluation_error);
     create_result_answer := fun _ => None;
     generate_answer := fun _ _ => Some evaluation_error;
     create_observations_answer := None;
     create_findings_answer := None;
     create_evidence_answer := None |}.

Definition plugin : CompliancePlugin :=
  {| logger := {| Level := LevelDebug; JSONFormat := true |}; config := None |}.

Definition request : option proto.EvalRequest :=
  Some {| proto.PolicyPaths := ["policies/a"; "policies/b"] |}.
End Scripted.

(** * Specification vocabulary *)
Section Vocabulary.
Context {E : Externals}.
Import proto.

(** The package of the policy a verdict is about. *)
Definition package_of (result : policyManager.Result) : string :=
  policyManager.Package (policyManager.ResultPolicy result).

(** What [Eval] of [src/main.go] hands to [CreateResult] for a pair: its
    stream identifier, its labels and the policy; nothing when there is no
    stream identifier. *)
Definition publication (pair : string * Instance)
  : option (string * gmap string string * string) :=
  (fun sid => (sid, Main_go.result_labels pair.1 (Main_go.sgid_of pair.2), pair.1))
    <$> Main_go.stream_identifier pair.1 (Main_go.sgid_of pair.2).

(** Every (policy, resource document) pair of a run, in the order of the two
    loops. *)
Definition all_pairs (policyPaths : list string) (instances : list Instance)
  : list (string * Instance) :=
  flat_map (fun i => map (fun p => (p, i)) policyPaths) instances.

(** The same for the later revisions, which hand over the security group. *)
Definition group_pairs (policyPaths : list string) (groups : list SecurityGroup)
  : list (string * SecurityGroup) :=
  flat_map (fun g => map (fun p => (p, g)) policyPaths) groups.

(** What a run keeps of its trace: every error is recorded in the
    accumulator, every pair evaluated without error that has a stream
    identifier is published, and every observation sent took its identifier
    from a draw of its own. *)
Definition run_ok (acc : Acc) (tr : list Event) (acc' : Acc) : Prop :=
  acc' = absorb acc (errors_of tr) /\
  published tr = omap publication (evaluated tr) /\
  observation_ids (results_sent tr) `sublist_of` drawn tr.

Definition target_state (f : Finding) : option string :=
  match Target f with
  | Some {| Status := Some s |} => Some (State s)
  | _ => None
  end.

(** An output link stands for a link of a risk entry. *)
Definition link_matches (link : policyManager.Link) (l : Link) : Prop :=
  Href l = policyManager.URL link /\ Text l = Some (policyManager.Text link).

(** A risk artifact carries a risk entry verbatim, link by link. *)
Definition risk_matches (entry : policyManager.Risk) (r : Risk) : Prop :=
  RiskTitle r = policyManager.RiskTitle entry /\
  RiskDescription r = policyManager.RiskDescription entry /\
  RiskStatement r = policyManager.RiskStatement entry /\
  Forall2 link_matches (policyManager.Links entry) (RiskLinks r).

(** A finding reports one violation against the observation [id]. *)
Definition finding_reports (id : string) (v : policyManager.Violation) (f : Finding) : Prop :=
  FindingTitle f = policyManager.Title v /\
  FindingDescription f = policyManager.Description v /\
  FindingRemarks f = Some (policyManager.Remarks v) /\
  target_state f = Some runner.FindingTargetStatusNotSatisfied /\
  RelatedObservations f = [ {| ObservationUuid := id |} ].
End Vocabulary.

(** * Measures of a run *)
Section Measures.
Context {E : Externals}.
Import proto.

(** The findings a list of verdicts calls for: one per violation, and one
    for a verdict without any. *)
Definition findings_expected (results : list policyManager.Result) : nat :=
  sum_list
    ((fun r => match policyManager.Violations r with
               | [] => 1
               | vs => length vs
               end) <$> results).

Definition risks_expected (results : list policyManager.Result) : nat :=
  sum_list ((fun r => length (policyManager.Risks r)) <$> results).

(** The verdicts the evaluator answered with, over the calls that did not
    fail. *)
Definition verdicts_returned (tr : list Event) : list policyManager.Result :=
  mjoin (omap (fun e => match e with
                        | EvExecute _ _ results None => Some results
                        | _ => None
                        end) tr).

(** The answers of [config.LoadDefaultConfig]. *)
Definition configured (tr : list Event) : list goerror :=
  omap (fun e => match e with
                 | EvLoadDefaultConfig err => Some err
                 | _ => None
                 end) tr.

(** The batches of evidence handed to the agent. *)
Definition evidence_batches (tr : list Event) : list (list processor.Evidence) :=
  omap (fun e => match e with
                 | EvCreateEvidence evs _ => Some evs
                 | _ => None
                 end) tr.


(** The assessment results handed to [CreateResult], each with the clock
    reading that was taken last before the call and after the call before
    it; [last] is that reading at the start of the trace, if there is
    one. *)
Fixpoint closings (last : option Time) (tr : list Event)
  : list (option Time * AssessmentResult) :=
  match tr with
  | [] => []
  | EvNow t :: rest => closings (Some t) rest
  | EvCreateResult _ _ _ r _ :: rest => (last, r) :: closings None rest
  | _ :: rest => closings last rest
  end.

(** What [Eval] of [src/main.go] puts around the artifacts of a pair: the
    title, the start of the run, as its end the reading that closes the
    pair, and one log entry over the same two instants. *)
Definition result_envelope (startTime : Time)
    (closing : option Time * AssessmentResult) : Prop :=
  Title closing.2 = "Security Group checks - AWS plugin" /\
  Start closing.2 = Some (timestamppb_New startTime) /\
  exists endTime,
    closing.1 = Some endTime /\
    End_ closing.2 = Some (timestamppb_New endTime) /\
    Logs closing.2 =
      [ {| EntryTitle := Some "Template check";
           EntryDescription := Some "Template plugin checks completed successfully";
           EntryStart := timestamppb_New startTime;
           EntryEnd := timestamppb_New endTime |} ].

(** What a run of [src/main.go] does before its loops. *)
Definition Eval_prefix (startTime : Time) (cerr : goerror)
    (output : option DescribeSecurityGroupsOutput) (derr : goerror) : list Event :=
  [EvNow startTime; EvLoadDefaultConfig cerr] ++
  match cerr with
  | Some _ => [EvLog LevelError "unable to load SDK config"]
  | None => []
  end ++
  [EvDescribeSecurityGroups output derr] ++
  match derr with
  | Some _ => [EvLog LevelError "cant list security groups"]
  | None => []
  end.

(** The accumulator after the configuration and the provider answered. *)
Definition Acc_after (cerr derr : goerror) : Acc :=
  let acc := match cerr with
             | Some _ => record_failure cerr Acc_init
             | None => Acc_init
             end in
  match derr with
  | Some _ => record_failure derr acc
  | None => acc
  end.

(** A consumer of [getSecurityGroups] that writes down what it is yielded
    and goes on as long as [keep] says so. *)
Definition recorder (keep : SecurityGroup -> bool) (group : SecurityGroup)
    (err : goerror) (seen : list (SecurityGroup * goerror))
  : M (bool * list (SecurityGroup * goerror)) :=
  ret (keep group, seen ++ [(group, err)]).

(** The groups up to and including the first one [keep] rejects. *)
Fixpoint upto_first_stop (keep : SecurityGroup -> bool) (groups : list SecurityGroup)
  : list SecurityGroup :=
  match groups with
  | [] => []
  | group :: rest =>
      group :: (if keep group then upto_first_stop keep rest else [])
  end.

(** Every batch of findings in the trace comes right after a batch of
    observations that the agent accepted; [accepted] says whether the event
    just before the trace was such a batch. *)
Fixpoint findings_after_accepted (accepted : bool) (tr : list Event) : bool :=
  match tr with
  | [] => true
  | EvCreateFindings _ _ :: rest => accepted && findings_after_accepted false rest
  | EvCreateObservations _ None :: rest => findings_after_accepted true rest
  | _ :: rest => findings_after_accepted false rest
  end.

(** An event that is not a batch of observations or findings. *)
Definition no_batch (e : Event) : Prop :=
  match e with
  | EvCreateObservations _ _ | EvCreateFindings _ _ => False
  | _ => True
  end.

(** The identifiers the subjects and the inventory of a security group
    refer to exist: implemented components are components, a component
    subject is a component, an inventory subject is an inventory item. *)
Definition references_resolve (components : list processor.Component)
    (inventory : list processor.InventoryItem) (subjects : list processor.Subject) : Prop :=
  Forall (fun item =>
            Forall (fun c => c ∈ processor.ComponentIdentifier <$> components)
              (processor.ImplementedComponents item)) inventory /\
  Forall (fun s =>
            match processor.SubjectType_ s with
            | processor.SUBJECT_TYPE_COMPONENT =>
                processor.SubjectIdentifier s ∈ processor.ComponentIdentifier <$> components
            | processor.SUBJECT_TYPE_INVENTORY_ITEM =>
                processor.SubjectIdentifier s ∈ processor.InventoryIdentifier <$> inventory
            end) subjects.
End Measures.

(** More scripted worlds. *)
Module Scenarios.
Import Scripted.

(** The agent refuses every batch of evidence. *)
Definition evidence_refused : world :=
  {| clock := jan15; tick := 1000; uuids := 0;
     config_answer := None;
     describe_answer := (Some {| SecurityGroups := [sg "sg-1"; sg "sg-2"] |}, None);
     execute_answer := fun _ _ => ([], None);
     create_result_answer := fun _ => None;
     generate_answer := fun _ _ => None;
     create_observations_answer := None;
     create_findings_answer := None;
     create_evidence_answer := Some publish_error |}.

Definition config_error : error := ErrorString "failed to load shared config".

(** Loading the configuration fails, the provider answers all the same. *)
Definition config_fails : world :=
  {| clock := jan15; tick := 1000; uuids := 0;
     config_answer := Some config_error;
     describe_answer := (Some {| SecurityGroups := [sg "sg-1"; sg "sg-2"] |}, None);
     execute_answer := fun _ _ => ([failing_verdict; passing_verdict], None);
     create_result_answer := fun _ => None;
     generate_answer := fun _ _ => None;
     create_observations_answer := None;
     create_findings_answer := None;
     create_evidence_answer := None |}.

Definition no_policies : option proto.EvalRequest :=
  Some {| proto.PolicyPaths := [] |}.

(** Neither an output nor an error: not an answer of the SDK, but one its
    types allow. *)
Definition nothing_back : world :=
  {| clock := jan15; tick := 1000; uuids := 0;
     config_answer := None;
     describe_answer := (None, None);
     execute_answer := fun _ _ => ([], None);
     create_result_answer := fun _ => None;
     generate_answer := fun _ _ => None;
     create_observations_answer := None;
     create_findings_answer := None;
     create_evidence_answer := None |}.
End Scenarios.

(** * Running a computation *)
Section Runs.
Context {E : Externals}.

Lemma bind_inv {A B} (m : M A) (k : A -> M B) w b tr w' :
  bind m k w = (b, tr, w') ->
  exists a t1 w1 t2,
    m w = (a, t1, w1) /\ k a w1 = (b, t2, w') /\ tr = t1 ++ t2.
Proof.
  unfold bind. destruct (m w) as [[a t1] w1].
  destruct (k a w1) as [[b' t2] w2] eqn:Hk.
  intros [= <- <- <-]. eauto 10.
Qed.

Lemma bind_run {A B} (m : M A) (k : A -> M B) w a t1 w1 b t2 w2 :
  m w = (a, t1, w1) -> k a w1 = (b, t2, w2) ->
  bind m k w = (b, t1 ++ t2, w2).
Proof. intros Hm Hk. unfold bind. by rewrite Hm, Hk. Qed.

Lemma for_range_nil {A S} (body : S -> A -> M S) s w :
  for_range body [] s w = (s, [], w).
Proof. reflexivity. Qed.

Lemma for_range_cons_inv {A S} (body : S -> A -> M S) x xs s w s' tr w' :
  for_range body (x :: xs) s w = (s', tr, w') ->
  exists s1 t1 w1 t2,
    body s x w = (s1, t1, w1) /\ for_range body xs s1 w1 = (s', t2, w') /\
    tr = t1 ++ t2.
Proof. apply bind_inv. Qed.

(** A loop is run by running its body on each element in turn; a property
    of the loop's variables and trace that the body extends is extended by
    the loop. *)
Lemma for_range_ind {A S} (body : S -> A -> M S)
    (P : list A -> S -> list Event -> S -> Prop) :
  (forall s, P [] s [] s) ->
  (forall x xs s w s1 t1 w1 s2 t2,
     body s x w = (s1, t1, w1) -> P xs s1 t2 s2 -> P (x :: xs) s (t1 ++ t2) s2) ->
  forall xs s w s' tr w',
    for_range body xs s w = (s', tr, w') -> P xs s tr s'.
Proof.
  intros Hnil Hcons xs. induction xs as [|x xs IH]; intros s w s' tr w' Hrun.
  - rewrite for_range_nil in Hrun. injection Hrun as <- <- <-. apply Hnil.
  - apply for_range_cons_inv in Hrun as (s1 & t1 & w1 & t2 & Hb & Hrest & ->).
    eapply Hcons; eauto.
Qed.
End Runs.

(** * The evidence assembler of [src/main.go] *)
Section Assembler.
Context {E : Externals}.
Import proto CallableAssessmentResult Main_go.

Lemma fold_AddFinding {A} (mk : A -> Finding) (xs : list A) (a : AssessmentResult) :
  let a' := fold_left (fun a x => AddFinding (mk x) a) xs a in
  Findings a' = Findings a ++ map mk xs /\
  Observations a' = Observations a /\ Risks a' = Risks a.
Proof.
  revert a. induction xs as [|x xs IH]; intros a; simpl.
  - by rewrite app_nil_r.
  - destruct (IH (AddFinding (mk x) a)) as (-> & -> & ->). simpl.
    by rewrite <- app_assoc.
Qed.

Lemma fold_AddRiskEntry {A} (mk : A -> Risk) (xs : list A) (a : AssessmentResult) :
  let a' := fold_left (fun a x => AddRiskEntry (mk x) a) xs a in
  Risks a' = Risks a ++ map mk xs /\
  Observations a' = Observations a /\ Findings a' = Findings a.
Proof.
  revert a. induction xs as [|x xs IH]; intros a; simpl.
  - by rewrite app_nil_r.
  - destruct (IH (AddRiskEntry (mk x) a)) as (-> & -> & ->). simpl.
    by rewrite <- app_assoc.
Qed.

Lemma fold_append_map {A B} (f : A -> B) (xs : list A) (acc : list B) :
  fold_left (fun ys x => ys ++ [f x]) xs acc = acc ++ map f xs.
Proof.
  revert acc. induction xs as [|x xs IH]; intros acc; simpl.
  - by rewrite app_nil_r.
  - rewrite IH. by rewrite <- app_assoc.
Qed.

Lemma risk_entry_matches (entry : policyManager.Risk) :
  risk_matches entry (risk_entry entry).
Proof.
  unfold risk_matches, risk_entry; simpl. repeat split.
  rewrite fold_append_map. simpl.
  induction (policyManager.Links entry); constructor; [by split | done].
Qed.

(** One verdict with violations: what [Eval_result] computes. *)
Lemma Eval_result_violations instance ar result w :
  policyManager.Violations result <> [] ->
  exists id w1 collected w2 expires w3,
    uuid_New w = (id, w1) /\ time_Now w1 = (collected, w2) /\
    time_Now w2 = (expires, w3) /\
    Eval_result instance ar result w =
      (fold_left (fun a risk => AddRiskEntry (risk_entry risk) a)
         (policyManager.Risks result)
         (fold_left
            (fun a violation =>
               AddFinding
                 (violation_finding id (package_of result) (sgid_of instance) violation) a)
            (policyManager.Violations result)
            (AddObservation
               (violations_observation id collected expires (package_of result)
                  (sgid_of instance) (length (policyManager.Violations result)))
               ar)),
       [EvUuid id; EvNow collected; EvNow expires], w3).
Proof.
  intros Hv. unfold Eval_result, package_of.
  destruct (policyManager.Violations result) as [|v vs] eqn:Hvs; [done|].
  destruct (uuid_New w) as [id w1] eqn:H1.
  destruct (time_Now w1) as [c w2] eqn:H2.
  destruct (time_Now w2) as [e w3] eqn:H3.
  exists id, w1, c, w2, e, w3. repeat split; try done.
  cbn. unfold bind, new_uuid, now, call, ret. cbn.
  rewrite H1. cbn. by rewrite H2, H3.
Qed.

(** One verdict without violations: what [Eval_result] computes. *)
Lemma Eval_result_satisfied instance ar result w :
  policyManager.Violations result = [] ->
  exists id w1 collected w2 expires w3,
    uuid_New w = (id, w1) /\ time_Now w1 = (collected, w2) /\
    time_Now w2 = (expires, w3) /\
    Eval_result instance ar result w =
      (fold_left (fun a risk => AddRiskEntry (risk_entry risk) a)
         (policyManager.Risks result)
         (AddFinding (satisfied_finding (package_of result) (sgid_of instance))
            (AddObservation
               (satisfied_observation id collected expires (package_of result)
                  (sgid_of instance))
               ar)),
       [EvUuid id; EvNow collected; EvNow expires], w3).
Proof.
  intros Hv. unfold Eval_result, package_of. rewrite Hv.
  destruct (uuid_New w) as [id w1] eqn:H1.
  destruct (time_Now w1) as [c w2] eqn:H2.
  destruct (time_Now w2) as [e w3] eqn:H3.
  exists id, w1, c, w2, e, w3. repeat split; try done.
  cbn. unfold bind, new_uuid, now, call, ret. cbn.
  rewrite H1. cbn. by rewrite H2, H3.
Qed.

(** Whatever the verdict, [Eval_result] adds one observation, whose
    identifier is the one UUID it draws, and the risks of the verdict. *)
Lemma Eval_result_shape instance ar result w :
  exists id w1 collected w2 expires w3 o,
    uuid_New w = (id, w1) /\ time_Now w1 = (collected, w2) /\
    time_Now w2 = (expires, w3) /\
    let '(ar', tr, w') := Eval_result instance ar result w in
    tr = [EvUuid id; EvNow collected; EvNow expires] /\ w' = w3 /\
    Observations ar' = Observations ar ++ [o] /\
    Uuid o = id /\
    Collected o = timestamppb_New collected /\
    Expires o = timestamppb_New (time_AddDate expires 0 1 0) /\
    Risks ar' = Risks ar ++ map risk_entry (policyManager.Risks result).
Proof.
  destruct (policyManager.Violations result) as [|v vs] eqn:Hvs.
  - destruct (Eval_result_satisfied instance ar result w Hvs)
      as (id & w1 & c & w2 & e & w3 & H1 & H2 & H3 & ->).
    eexists id, w1, c, w2, e, w3, _. repeat split; try done.
    + by destruct (fold_AddRiskEntry risk_entry (policyManager.Risks result)
        (AddFinding (satisfied_finding (package_of result) (sgid_of instance))
           (AddObservation
              (satisfied_observation id c e (package_of result) (sgid_of instance)) ar)))
        as (_ & -> & _).
    + done.
    + done.
    + done.
    + by destruct (fold_AddRiskEntry risk_entry (policyManager.Risks result)
        (AddFinding (satisfied_finding (package_of result) (sgid_of instance))
           (AddObservation
              (satisfied_observation id c e (package_of result) (sgid_of instance)) ar)))
        as (-> & _ & _).
  - assert (policyManager.Violations result <> []) as Hne by (by rewrite Hvs).
    destruct (Eval_result_violations instance ar result w Hne)
      as (id & w1 & c & w2 & e & w3 & H1 & H2 & H3 & ->).
    eexists id, w1, c, w2, e, w3, _. repeat split; try done.
    + match goal with
      | |- context [fold_left ?f (policyManager.Risks result) ?a] =>
          destruct (fold_AddRiskEntry risk_entry (policyManager.Risks result) a)
            as (_ & -> & _)
      end.
      match goal with
      | |- context [fold_left ?f (policyManager.Violations result) ?a] =>
          destruct (fold_AddFinding
                      (violation_finding id (package_of result) (sgid_of instance))
                      (policyManager.Violations result) a) as (_ & -> & _)
      end.
      done.
    + done.
    + done.
    + done.
    + match goal with
      | |- context [fold_left ?f (policyManager.Risks result) ?a] =>
          destruct (fold_AddRiskEntry risk_entry (policyManager.Risks result) a)
            as (-> & _ & _)
      end.
      match goal with
      | |- context [fold_left ?f (policyManager.Violations result) ?a] =>
          destruct (fold_AddFinding
                      (violation_finding id (package_of result) (sgid_of instance))
                      (policyManager.Violations result) a) as (_ & _ & ->)
      end.
      done.
Qed.
End Assembler.

(** * Accumulated errors *)
Section Accumulation.
Context {E : Externals}.

Lemma absorb_app acc es1 es2 :
  absorb acc (es1 ++ es2) = absorb (absorb acc es1) es2.
Proof. apply fold_left_app. Qed.

Lemma absorb_snoc acc es e :
  absorb acc (es ++ [e]) = record_failure (Some e) (absorb acc es).
Proof. by rewrite absorb_app. Qed.

Lemma errors_Join_some (a : goerror) (e : error) :
  exists j, errors_Join [a; Some e] = Some j /\ contains_error j e /\
            forall e', a = Some e' -> contains_error j e'.
Proof.
  destruct a as [a|]; simpl.
  - exists (JoinError [a; e]). split; [done|]. split.
    + eapply contains_joined; [|apply contains_self]. set_solver.
    + intros e' [= ->]. eapply contains_joined; [|apply contains_self]. set_solver.
  - exists (JoinError [e]). split; [done|]. split.
    + eapply contains_joined; [|apply contains_self]. set_solver.
    + intros e' [=].
Qed.

Lemma contains_error_trans a b c :
  contains_error a b -> contains_error b c -> contains_error a c.
Proof.
  induction 1 as [|es e' e Hin _ IH]; [done|].
  intros Hc. eapply contains_joined; eauto.
Qed.

(** Recording failures never loses an error recorded before. *)
Lemma absorb_keeps acc es e :
  errAcc acc = Some e ->
  exists j, errAcc (absorb acc es) = Some j /\ contains_error j e.
Proof.
  revert acc e. induction es as [|x es IH]; intros acc e Hacc; simpl.
  - exists e. split; [done | apply contains_self].
  - destruct (errors_Join_some (errAcc acc) x) as (j & Hj & _ & Hold).
    destruct (IH (record_failure (Some x) acc) j Hj) as (j' & Hj' & Hc).
    exists j'. split; [done|].
    eapply contains_error_trans; [done|]. by apply Hold.
Qed.

(** Every error recorded is found in the joined error. *)
Lemma absorb_contains acc es e :
  e ∈ es ->
  exists j, errAcc (absorb acc es) = Some j /\ contains_error j e.
Proof.
  revert acc. induction es as [|x es IH]; intros acc Hin; [set_solver|].
  apply elem_of_cons in Hin as [->|Hin]; simpl.
  - destruct (errors_Join_some (errAcc acc) x) as (j & Hj & Hc & _).
    destruct (absorb_keeps (record_failure (Some x) acc) es j Hj) as (j' & Hj' & Hc').
    exists j'. split; [done|]. by eapply contains_error_trans.
  - by apply IH.
Qed.

Lemma absorb_status acc es :
  evalStatus (absorb acc es) =
    match es with
    | [] => evalStatus acc
    | _ => proto.ExecutionStatus_FAILURE
    end.
Proof.
  destruct es as [|e es] using rev_ind; [done|].
  rewrite absorb_snoc. simpl. by destruct (es ++ [e]) eqn:Heq; [destruct es|].
Qed.

Lemma absorb_error_nil acc es :
  errAcc (absorb acc es) = None <-> errAcc acc = None /\ es = [].
Proof.
  split.
  - destruct es as [|e es] using rev_ind; [done|].
    rewrite absorb_snoc. simpl.
    destruct (errors_Join_some (errAcc (absorb acc es)) e) as (j & -> & _). done.
  - by intros [? ->].
Qed.
End Accumulation.

(** * The run of [src/main.go] *)
Section MainRun.
Context {E : Externals}.
Import proto CallableAssessmentResult Main_go.

Lemma run_ok_nil acc : run_ok acc [] acc.
Proof. repeat split. apply sublist_nil_l. Qed.

Lemma run_ok_app a t1 b t2 c :
  run_ok a t1 b -> run_ok b t2 c -> run_ok a (t1 ++ t2) c.
Proof.
  intros (-> & Hp1 & Hs1) (-> & Hp2 & Hs2). unfold run_ok.
  unfold errors_of, published, evaluated, results_sent, drawn, observation_ids in *.
  rewrite !omap_app, flat_map_app, absorb_app. repeat split.
  - by rewrite Hp1, Hp2.
  - by apply sublist_app.
Qed.

(** The loop over the verdicts of one pair calls nothing but the UUID
    generator and the clock; it adds one observation per verdict, each with
    a drawn identifier of its own, and every risk of every verdict. *)
Lemma Eval_results_run instance results ar w ar' tr w' :
  for_range (Eval_result instance) results ar w = (ar', tr, w') ->
  (errors_of tr = [] /\ executed tr = [] /\ evaluated tr = [] /\
   published tr = [] /\ results_sent tr = [] /\ fetched tr = []) /\
  map Uuid (Observations ar') = map Uuid (Observations ar) ++ drawn tr /\
  Risks ar' =
    Risks ar ++ flat_map (fun r => map risk_entry (policyManager.Risks r)) results.
Proof.
  revert ar w ar' tr w'.
  induction results as [|result results IH]; intros ar w ar' tr w' Hrun.
  - rewrite for_range_nil in Hrun. injection Hrun as <- <- <-.
    by rewrite !app_nil_r.
  - apply for_range_cons_inv in Hrun as (a1 & t1 & w1 & t2 & Hb & Hrest & ->).
    destruct (Eval_result_shape instance ar result w)
      as (id & wa & c & wb & e & wc & o & _ & _ & _ & Hshape).
    rewrite Hb in Hshape.
    destruct Hshape as (-> & -> & Hobs & Hid & _ & _ & Hrisks).
    destruct (IH _ _ _ _ _ Hrest) as ((He & Hx & Hv & Hp & Hs & Hf) & Hids & Hr).
    unfold errors_of, executed, evaluated, published, results_sent, fetched, drawn in *.
    rewrite !omap_app, He, Hx, Hv, Hp, Hs, Hf. simpl.
    repeat split.
    + rewrite Hids, Hobs, map_app. simpl. rewrite Hid. by rewrite <- app_assoc.
    + rewrite Hr, Hrisks. by rewrite <- app_assoc.
Qed.

(** One (security group, policy) pair. *)
Lemma Eval_policy_run startTime instance acc policyPath w acc' tr w' :
  Eval_policy startTime instance acc policyPath w = (acc', tr, w') ->
  run_ok acc tr acc' /\ executed tr = [(policyPath, instance)] /\ fetched tr = [].
Proof.
  unfold Eval_policy, execute, call. intros Hrun.
  apply bind_inv in Hrun as ([results err] & t1 & w1 & t2 & H1 & H2 & ->).
  destruct (Execute policyPath instance w) as [[results0 err0] w0] eqn:Hexec.
  injection H1 as <- <- <- <-.
  destruct err0 as [e|].
  { (* the evaluator failed *)
    unfold bind, logger_Error, ret in H2. injection H2 as <- <- <-. simpl.
    repeat split. apply sublist_nil_l. }
  apply bind_inv in H2 as (ar & t3 & w3 & t4 & H3 & H4 & ->).
  apply Eval_results_run in H3 as ((He & Hx & Hv & Hp & Hs & Hf) & Hids & _).
  apply bind_inv in H4 as (endTime & t5 & w5 & t6 & H5 & H6 & ->).
  unfold now, call in H5. destruct (time_Now w3) as [t w6]. injection H5 as <- <- <-.
  apply bind_inv in H6 as ([streamId serr] & t7 & w7 & t8 & H7 & H8 & ->).
  unfold seeded_uuid in H7.
  destruct (SeededUUID (stream_seed policyPath (sgid_of instance)))
    as [sid0 serr0] eqn:Hseed.
  injection H7 as <- <- <- <-.
  assert (publication (policyPath, instance) =
          match serr0 with
          | None => Some (UUID_String sid0,
                          result_labels policyPath (sgid_of instance), policyPath)
          | Some _ => None
          end) as Hpub.
  { unfold publication, stream_identifier. simpl. rewrite Hseed. by destruct serr0. }
  destruct serr0 as [e|].
  { (* no stream identifier *)
    unfold bind, logger_Error, ret in H8. injection H8 as <- <- <-.
    unfold run_ok, errors_of, executed, evaluated, published, results_sent,
      fetched, drawn, observation_ids in *.
    simpl. rewrite !omap_app, He, Hx, Hv, Hp, Hs, Hf. simpl. rewrite Hpub.
    repeat split. apply sublist_nil_l. }
  apply bind_inv in H8 as (perr & t9 & w9 & t10 & H9 & H10 & ->).
  unfold create_result, call in H9.
  match type of H9 with
  | (let '(_, _) := ?c in _) = _ => destruct c as [perr0 w10]
  end.
  injection H9 as <- <- <-.
  assert (map Uuid (Observations ar) = drawn t3) as Hids' by done.
  destruct perr0 as [e|].
  - unfold bind, logger_Error, ret in H10. injection H10 as <- <- <-.
    unfold run_ok, errors_of, executed, evaluated, published, results_sent,
      fetched, drawn, observation_ids in *.
    simpl. rewrite !omap_app, He, Hx, Hv, Hp, Hs, Hf. simpl.
    rewrite Hpub, !app_nil_r, Hids'. done.
  - unfold ret in H10. injection H10 as <- <- <-.
    unfold run_ok, errors_of, executed, evaluated, published, results_sent,
      fetched, drawn, observation_ids in *.
    simpl. rewrite !omap_app, He, Hx, Hv, Hp, Hs, Hf. simpl.
    rewrite Hpub, !app_nil_r, Hids'. done.
Qed.

(** The loop over the policies of one security group. *)
Lemma Eval_policies_run startTime instance policyPaths acc w acc' tr w' :
  for_range (Eval_policy startTime instance) policyPaths acc w = (acc', tr, w') ->
  run_ok acc tr acc' /\
  executed tr = map (fun p => (p, instance)) policyPaths /\
  fetched tr = [].
Proof.
  revert acc w acc' tr w'.
  induction policyPaths as [|p ps IH]; intros acc w acc' tr w' Hrun.
  - rewrite for_range_nil in Hrun. injection Hrun as <- <- <-.
    split; [apply run_ok_nil | done].
  - apply for_range_cons_inv in Hrun as (a1 & t1 & w1 & t2 & Hb & Hrest & ->).
    apply Eval_policy_run in Hb as (Hok1 & Hx1 & Hf1).
    apply IH in Hrest as (Hok2 & Hx2 & Hf2).
    split; [by eapply run_ok_app|].
    unfold executed, fetched in *. rewrite !omap_app, Hx1, Hx2, Hf1, Hf2. done.
Qed.

(** The two nested loops: every pair is handed to the evaluator, in order,
    whatever failed before it. *)
Lemma Eval_loop_run startTime policyPaths instances acc w acc' tr w' :
  Eval_loop startTime policyPaths instances acc w = (acc', tr, w') ->
  run_ok acc tr acc' /\
  executed tr = all_pairs policyPaths instances /\
  fetched tr = [].
Proof.
  unfold Eval_loop. revert acc w acc' tr w'.
  induction instances as [|i rest IH]; intros acc w acc' tr w' Hrun.
  - rewrite for_range_nil in Hrun. injection Hrun as <- <- <-.
    split; [apply run_ok_nil | done].
  - apply for_range_cons_inv in Hrun as (a1 & t1 & w1 & t2 & Hb & Hrest & ->).
    apply Eval_policies_run in Hb as (Hok1 & Hx1 & Hf1).
    apply IH in Hrest as (Hok2 & Hx2 & Hf2).
    split; [by eapply run_ok_app|].
    unfold executed, fetched, all_pairs in *.
    rewrite !omap_app, Hx1, Hx2, Hf1, Hf2. done.
Qed.

(** The loop of lines 63-70 turns each security group into its resource
    document and calls nothing but the logger. *)
Lemma instances_run groups acc w :
  for_range
    (fun securityGroups group =>
       logger_Debug "SG ID: ";; ret (securityGroups ++ [instance_of group]))
    groups acc w
  = (acc ++ map instance_of groups,
     map (fun _ => EvLog LevelDebug "SG ID: ") groups, w).
Proof.
  revert acc. induction groups as [|g gs IH]; intros acc.
  - by rewrite for_range_nil, app_nil_r.
  - simpl. erewrite bind_run; [|reflexivity|apply IH].
    simpl. by rewrite <- app_assoc.
Qed.

Lemma log_only_projections {A} (groups : list A) (msg : string) :
  let tr := map (fun _ => EvLog LevelDebug msg) groups in
  errors_of tr = [] /\ executed tr = [] /\ evaluated tr = [] /\
  published tr = [] /\ results_sent tr = [] /\ fetched tr = [] /\ drawn tr = [].
Proof. induction groups; simpl; done. Qed.

(** The whole run: the provider's answer decides between a panic and a
    return; a run that returns has recorded every error, evaluated every
    pair and published every pair it could. *)
Lemma Eval_run l request w r tr w' :
  Eval l request w = (r, tr, w') ->
  exists output derr,
    fetched tr = [(output, derr)] /\
    match output with
    | None =>
        r = Panicked nil_dereference /\ executed tr = [] /\ published tr = []
    | Some out =>
        let acc := absorb Acc_init (errors_of tr) in
        r = Returned (Some {| EvalStatus := evalStatus acc |}, errAcc acc) /\
        run_ok Acc_init tr acc /\
        executed tr =
          all_pairs (GetPolicyPaths request) (map instance_of (SecurityGroups out))
    end.
Proof.
  unfold Eval. intros Hrun.
  apply bind_inv in Hrun as (x1 & t1 & w1 & t2 & H1 & H2 & ->).
  unfold now, call in H1. destruct (time_Now w) as [startTime w0].
  injection H1 as <- <- <-.
  apply bind_inv in H2 as ([x2 x3] & t3 & w3 & t4 & H3 & H4 & ->).
  unfold load_config, call in H3.
  destruct (LoadDefaultConfig w0) as [[cfg cerr] w0']. injection H3 as <- <- <- <-.
  apply bind_inv in H4 as (acc1 & t5 & w5 & t6 & H5 & H6 & ->).
  apply bind_inv in H6 as ([x4 x5] & t7 & w7 & t8 & H7 & H8 & ->).
  unfold describe_security_groups, call in H7.
  destruct (DescribeSecurityGroups cfg w5) as [[output derr] w5'].
  injection H7 as <- <- <- <-.
  apply bind_inv in H8 as (acc2 & t9 & w9 & t10 & H9 & H10 & ->).
  exists output, derr.
  set (prefix := [EvNow startTime] ++ [EvLoadDefaultConfig cerr] ++ t5 ++
                 [EvDescribeSecurityGroups output derr] ++ t9).
  assert (run_ok Acc_init prefix acc2 /\ executed prefix = [] /\
          published prefix = [] /\ fetched prefix = [(output, derr)])
    as (Hpre & Hpx & Hpp & Hpf).
  { unfold run_ok, prefix.
    destruct cerr, derr; unfold bind, logger_Error, ret in H5, H9;
      injection H5 as <- <- <-; injection H9 as <- <- <-;
      simpl; repeat split; apply sublist_nil_l. }
  replace ([EvNow startTime] ++ [EvLoadDefaultConfig cerr] ++ t5 ++
           [EvDescribeSecurityGroups output derr] ++ t9 ++ t10)
    with (prefix ++ t10) by (unfold prefix; by rewrite <- !app_assoc).
  clearbody prefix. clear H5 H9.
  destruct output as [out|].
  - apply bind_inv in H10 as (instances & t11 & w11 & t12 & H11 & H12 & ->).
    rewrite instances_run in H11. injection H11 as <- <- <-.
    apply bind_inv in H12 as ([] & t13 & w13 & t14 & H13 & H14 & ->).
    unfold logger_Debug in H13. injection H13 as <- <-.
    apply bind_inv in H14 as (acc3 & t15 & w15 & t16 & H15 & H16 & ->).
    unfold ret in H16. injection H16 as <- <- <-.
    apply Eval_loop_run in H15 as (Hok & Hx & Hf).
    destruct (log_only_projections (SecurityGroups out) "SG ID: ")
      as (Hle & Hlx & Hlv & Hlp & Hls & Hlf & Hld).
    rewrite app_nil_r.
    assert (run_ok Acc_init
              (prefix ++ map (fun _ => EvLog LevelDebug "SG ID: ") (SecurityGroups out) ++
               [EvLog LevelDebug "evaluating data"] ++ t15) acc3) as Hall.
    { eapply run_ok_app; [exact Hpre|].
      eapply (run_ok_app _ _ acc2); [|eapply (run_ok_app _ _ acc2); [|exact Hok]].
      - unfold run_ok. rewrite Hle, Hlp, Hlv, Hls, Hld. repeat split. apply sublist_nil_l.
      - repeat split. apply sublist_nil_l. }
    split.
    { unfold fetched in *. rewrite !omap_app, Hpf, Hlf, Hf. done. }
    destruct Hall as (Hacc & Hrest). cbv zeta. simpl app in *. rewrite <- Hacc.
    split; [done|]. split; [by split|].
    change (EvLog LevelDebug "evaluating data" :: t15)
      with ([EvLog LevelDebug "evaluating data"] ++ t15).
    unfold executed in *. rewrite !omap_app, Hpx, Hlx, Hx. done.
  - unfold ret in H10. injection H10 as <- <- <-.
    rewrite app_nil_r. done.
Qed.
End MainRun.

(** * The claims about the evidence assembler *)
Section AssemblerClaims.
Import proto CallableAssessmentResult Main_go.

Lemma Forall2_map_self {A B} (P : A -> B -> Prop) (f : A -> B) (xs : list A) :
  (forall x, P x (f x)) -> Forall2 P xs (map f xs).
Proof. intros Hf. induction xs; simpl; constructor; auto. Qed.

Lemma violation_finding_reports {E : Externals} id package sgid v :
  finding_reports id v (violation_finding id package sgid v).
Proof. by repeat split. Qed.

(** The observations sent in a run keep the identifiers apart as long as
    the generator does: no identifier drawn is used for two observations. *)
Lemma observation_ids_NoDup {E : Externals} l request w :
  let tr := (Eval l request w).1.2 in
  NoDup (drawn tr) -> NoDup (observation_ids (results_sent tr)).
Proof.
  destruct (Eval l request w) as [[r tr] w'] eqn:Hrun. simpl.
  destruct (Eval_run _ _ _ _ _ _ Hrun) as (output & derr & Hf & Hcase).
  intros Hnd. destruct output as [out|].
  - destruct Hcase as (_ & (_ & _ & Hsub) & _). by eapply sublist_NoDup.
  - destruct Hcase as (_ & _ & Hp).
    assert (results_sent tr = []) as ->; [|constructor].
    revert Hp. unfold published, results_sent. clear.
    induction tr as [|[] tr IH]; simpl; try done.
Qed.

(** C1.  A verdict with N > 0 violations adds exactly one observation and
    exactly N findings.  The observation's identifier is the UUID drawn from
    the generator as the first step of the verdict's processing, before any
    finding is built, and it is the only one drawn; each of the N findings
    reports one violation, in order, with status not-satisfied and a single
    back-reference to that identifier.  Across a run the identifiers of the
    observations sent are pairwise distinct whenever the generator's draws
    are. *)
Theorem violations_one_observation_N_findings :
  (forall (E : Externals) instance ar result w,
     0 < length (policyManager.Violations result) ->
     exists id w1 o fs,
       uuid_New w = (id, w1) /\
       drawn (Eval_result instance ar result w).1.2 = [id] /\
       Observations (Eval_result instance ar result w).1.1 = Observations ar ++ [o] /\
       Uuid o = id /\
       Findings (Eval_result instance ar result w).1.1 = Findings ar ++ fs /\
       length fs = length (policyManager.Violations result) /\
       Forall2 (finding_reports id) (policyManager.Violations result) fs) /\
  (forall (E : Externals) l request w,
     NoDup (drawn (Eval l request w).1.2) ->
     NoDup (observation_ids (results_sent (Eval l request w).1.2))).
Proof.
  split.
  - intros E instance ar result w HN.
    assert (policyManager.Violations result <> []) as Hne.
    { intros Heq. rewrite Heq in HN. simpl in HN. lia. }
    destruct (Eval_result_violations instance ar result w Hne)
      as (id & w1 & c & w2 & e & w3 & H1 & _ & _ & ->).
    exists id, w1,
      (violations_observation id c e (package_of result) (sgid_of instance)
         (length (policyManager.Violations result))),
      (map (violation_finding id (package_of result) (sgid_of instance))
         (policyManager.Violations result)).
    simpl.
    match goal with
    | |- context [fold_left ?f (policyManager.Risks result) ?a] =>
        destruct (fold_AddRiskEntry risk_entry (policyManager.Risks result) a)
          as (_ & -> & ->)
    end.
    match goal with
    | |- context [fold_left ?f (policyManager.Violations result) ?a] =>
        destruct (fold_AddFinding
                    (violation_finding id (package_of result) (sgid_of instance))
                    (policyManager.Violations result) a) as (-> & -> & _)
    end.
    simpl. repeat split; try done.
    + by rewrite length_map.
    + apply Forall2_map_self. intros v. apply violation_finding_reports.
  - intros E l request w. apply observation_ids_NoDup.
Qed.

(** C2.  A verdict with no violation adds exactly one observation and
    exactly one finding; the finding's status is satisfied and it refers
    back to no observation. *)
Theorem no_violation_one_observation_one_finding :
  forall (E : Externals) instance ar result w,
    length (policyManager.Violations result) = 0 ->
    exists o f,
      Observations (Eval_result instance ar result w).1.1 = Observations ar ++ [o] /\
      Findings (Eval_result instance ar result w).1.1 = Findings ar ++ [f] /\
      target_state f = Some runner.FindingTargetStatusSatisfied /\
      RelatedObservations f = [].
Proof.
  intros E instance ar result w HN.
  apply length_zero_iff_nil in HN.
  destruct (Eval_result_satisfied instance ar result w HN)
    as (id & w1 & c & w2 & e & w3 & _ & _ & _ & ->).
  exists (satisfied_observation id c e (package_of result) (sgid_of instance)),
    (satisfied_finding (package_of result) (sgid_of instance)).
  simpl.
  match goal with
  | |- context [fold_left ?f (policyManager.Risks result) ?a] =>
      destruct (fold_AddRiskEntry risk_entry (policyManager.Risks result) a)
        as (_ & -> & ->)
  end.
  done.
Qed.

(** C6.  Whatever its violations, a verdict adds exactly one risk artifact
    per risk entry, in order, carrying the entry's title, description and
    statement and one output link per link of the entry, in order; the same
    holds for all the verdicts of a (security group, policy) pair
    together. *)
Theorem one_risk_per_entry :
  forall (E : Externals) instance ar w,
    (forall result,
       exists rs,
         Risks (Eval_result instance ar result w).1.1 = Risks ar ++ rs /\
         Forall2 risk_matches (policyManager.Risks result) rs) /\
    (forall results,
       exists rs,
         Risks (for_range (Eval_result instance) results ar w).1.1 = Risks ar ++ rs /\
         Forall2 risk_matches (flat_map policyManager.Risks results) rs).
Proof.
  intros E instance ar w. split.
  - intros result. exists (map risk_entry (policyManager.Risks result)).
    destruct (Eval_result_shape instance ar result w)
      as (id & w1 & c & w2 & e & w3 & o & _ & _ & _ & Hshape).
    destruct (Eval_result instance ar result w) as [[ar' tr] w'].
    destruct Hshape as (_ & _ & _ & _ & _ & _ & Hr). simpl. split; [done|].
    apply Forall2_map_self, risk_entry_matches.
  - intros results.
    exists (flat_map (fun r => map risk_entry (policyManager.Risks r)) results).
    destruct (for_range (Eval_result instance) results ar w) as [[ar' tr] w'] eqn:Hrun.
    apply Eval_results_run in Hrun as (_ & _ & Hr). simpl. split; [exact Hr|].
    clear Hr. induction results as [|r rs IH]; simpl; [constructor|].
    apply Forall2_app; [|done].
    apply Forall2_map_self, risk_entry_matches.
Qed.

(** C9, as the code has it.  Every verdict adds one observation; its
    collection timestamp is one reading of the clock and its expiry
    timestamp is the next reading of the clock, taken right after,
    advanced by one calendar month.  These two readings are the only ones
    the verdict takes, in this order; whenever they coincide the expiry is
    the collection time advanced by one calendar month. *)
Theorem expiry_is_next_reading_plus_one_month :
  forall (E : Externals) instance ar result w,
    exists o collected w2 expires w3,
      time_Now (uuid_New w).2 = (collected, w2) /\
      time_Now w2 = (expires, w3) /\
      readings (Eval_result instance ar result w).1.2 = [collected; expires] /\
      Observations (Eval_result instance ar result w).1.1 = Observations ar ++ [o] /\
      Collected o = timestamppb_New collected /\
      Expires o = timestamppb_New (time_AddDate expires 0 1 0) /\
      (expires = collected ->
       Expires o = timestamppb_New (time_AddDate collected 0 1 0)).
Proof.
  intros E instance ar result w.
  destruct (Eval_result_shape instance ar result w)
    as (id & w1 & c & w2 & e & w3 & o & H1 & H2 & H3 & Hshape).
  destruct (Eval_result instance ar result w) as [[ar' tr] w'].
  destruct Hshape as (Htr & _ & Hobs & _ & Hc & He & _).
  exists o, c, w2, e, w3. rewrite H1. simpl.
  repeat split; try done.
  - by rewrite Htr.
  - intros <-. done.
Qed.
End AssemblerClaims.

(** C9, as stated, fails: in the scripted world the clock moves by a
    microsecond between the two readings, so the observation collected at
    2024-01-15T00:00:00Z expires a microsecond after 2024-02-15T00:00:00Z,
    which is the collection time plus one month. *)
Lemma expiry_differs_from_collection_plus_one_month :
  exists o,
    proto.Observations
      (Main_go.Eval_result (E := Scripted.externals) Scripted.instance1
         CallableAssessmentResult.New Scripted.passing_verdict
         Scripted.quiet_world).1.1 = [o] /\
    proto.Collected o = timestamppb_New (E := Scripted.externals) Scripted.jan15 /\
    proto.Collected o = {| proto.Seconds := 1705276800; proto.Nanos := 0 |} /\
    proto.Expires o = {| proto.Seconds := 1707955200; proto.Nanos := 1000 |} /\
    timestamppb_New (E := Scripted.externals)
      (time_AddDate (Externals := Scripted.externals) Scripted.jan15 0 1 0)
      = {| proto.Seconds := 1707955200; proto.Nanos := 0 |} /\
    proto.Expires o <>
      timestamppb_New (E := Scripted.externals)
        (time_AddDate (Externals := Scripted.externals) Scripted.jan15 0 1 0).
Proof.
  eexists. split; [vm_compute; reflexivity|].
  repeat split; try (vm_compute; reflexivity).
  vm_compute. intros [=].
Qed.

(** C10.  [Configure] answers every request, nil included, with a response
    and no error; the plugin afterwards holds the request's configuration
    map in place of the old one and the same logger. *)
Theorem Configure_never_fails :
  forall (l : CompliancePlugin) (req : option proto.ConfigureRequest),
    (Configure l req).2.1 = Some proto.Build_ConfigureResponse /\
    (Configure l req).2.2 = None /\
    config (Configure l req).1 = proto.GetConfig req /\
    logger (Configure l req).1 = logger l.
Proof. intros l req. by repeat split. Qed.

(** C1 on the scripted world: a verdict with two violations, and a run in
    which every evaluation answers with two verdicts. *)
Lemma violations_one_observation_N_findings_witness :
  0 < length (policyManager.Violations Scripted.failing_verdict) /\
  (exists o fs,
     proto.Observations
       (Main_go.Eval_result (E := Scripted.externals) Scripted.instance1
          CallableAssessmentResult.New Scripted.failing_verdict
          Scripted.quiet_world).1.1 = [o] /\
     proto.Uuid o = "uuid-0" /\
     proto.Findings
       (Main_go.Eval_result (E := Scripted.externals) Scripted.instance1
          CallableAssessmentResult.New Scripted.failing_verdict
          Scripted.quiet_world).1.1 = fs /\
     length fs = 2 /\
     Forall2 (finding_reports "uuid-0")
       (policyManager.Violations Scripted.failing_verdict) fs) /\
  NoDup (drawn (Main_go.Eval (E := Scripted.externals) Scripted.plugin
                  Scripted.request Scripted.busy_world).1.2) /\
  NoDup (observation_ids
           (results_sent
              (Main_go.Eval (E := Scripted.externals) Scripted.plugin
                 Scripted.request Scripted.busy_world).1.2)).
Proof.
  assert (0 < length (policyManager.Violations Scripted.failing_verdict)) as HN
    by (simpl; lia).
  assert (NoDup (drawn (Main_go.Eval (E := Scripted.externals) Scripted.plugin
                          Scripted.request Scripted.busy_world).1.2)) as Hnd
    by (apply (bool_decide_unpack _); vm_compute; reflexivity).
  split; [exact HN|]. split; [|split; [exact Hnd|]].
  - destruct (proj1 violations_one_observation_N_findings Scripted.externals
                Scripted.instance1 CallableAssessmentResult.New
                Scripted.failing_verdict Scripted.quiet_world HN)
      as (id & w1 & o & fs & Hid & _ & Hobs & Hu & Hfs & Hlen & Hall).
    injection Hid as <- _.
    exists o, fs. repeat split; done.
  - exact (proj2 violations_one_observation_N_findings Scripted.externals
             Scripted.plugin Scripted.request Scripted.busy_world Hnd).
Defined.

(** C2 on the scripted world: a verdict without violations. *)
Lemma no_violation_one_observation_one_finding_witness :
  length (policyManager.Violations Scripted.passing_verdict) = 0 /\
  exists o f,
    proto.Observations
      (Main_go.Eval_result (E := Scripted.externals) Scripted.instance1
         CallableAssessmentResult.New Scripted.passing_verdict
         Scripted.quiet_world).1.1 = [o] /\
    proto.Findings
      (Main_go.Eval_result (E := Scripted.externals) Scripted.instance1
         CallableAssessmentResult.New Scripted.passing_verdict
         Scripted.quiet_world).1.1 = [f] /\
    target_state f = Some "satisfied" /\
    proto.RelatedObservations f = [].
Proof.
  split; [reflexivity|].
  exact (no_violation_one_observation_one_finding Scripted.externals
           Scripted.instance1 CallableAssessmentResult.New
           Scripted.passing_verdict Scripted.quiet_world eq_refl).
Defined.

(** * The claims about the run of [src/main.go] *)
Section MainClaims.
Import proto Main_go.

(** The runs of [Eval] that return.  Such a run reports FAILURE exactly
    when some call of a collaborator answered with an error, and exactly
    when the joined error it returns is not nil; without any error it
    reports SUCCESS and a nil error; every error that occurred is found in
    the joined error.  The runs that do not return are those whose provider
    call hands back no output: they report nothing, whatever was recorded
    before. *)
Lemma status_is_failure_iff_an_error_occurred :
  forall (E : Externals) l request w,
    match (Eval l request w).1.1 with
    | Returned (resp, err) =>
        exists status,
          resp = Some {| EvalStatus := status |} /\
          (status = ExecutionStatus_FAILURE <-> errors_of (Eval l request w).1.2 <> []) /\
          (status = ExecutionStatus_FAILURE <-> err <> None) /\
          (errors_of (Eval l request w).1.2 = [] ->
             status = ExecutionStatus_SUCCESS /\ err = None) /\
          (forall e, e ∈ errors_of (Eval l request w).1.2 ->
             exists joined, err = Some joined /\ contains_error joined e)
    | Panicked _ =>
        exists derr, fetched (Eval l request w).1.2 = [(None, derr)]
    end.
Proof.
  intros E l request w.
  destruct (Eval l request w) as [[r tr] w'] eqn:Hrun. simpl.
  destruct (Eval_run _ _ _ _ _ _ Hrun) as (output & derr & Hf & Hcase).
  destruct output as [out|].
  - destruct Hcase as (-> & _ & _).
    exists (evalStatus (absorb Acc_init (errors_of tr))).
    pose proof (absorb_status Acc_init (errors_of tr)) as Hst.
    pose proof (absorb_error_nil Acc_init (errors_of tr)) as Hnil.
    split; [done|]. split; [|split; [|split]].
    + split.
      * intros Hfail Hno. rewrite Hno in Hfail. simpl in Hfail. congruence.
      * intros Hne. rewrite Hst. by destruct (errors_of tr).
    + split.
      * intros Hfail Hno. apply Hnil in Hno as [_ Hno].
        rewrite Hno in Hfail. simpl in Hfail. congruence.
      * intros Hne. rewrite Hst. destruct (errors_of tr); [|done].
        exfalso. apply Hne. by apply Hnil.
    + intros Hno. split; [by rewrite Hst, Hno | by apply Hnil].
    + intros e He. by apply absorb_contains.
  - destruct Hcase as (-> & _ & _). by exists derr.
Qed.

(** When the provider hands back no output, which is how the SDK reports a
    failed call, [Eval] of [src/main.go] dereferences it and panics, having
    evaluated and published nothing. *)
Lemma Eval_panics_without_output (E : Externals) l request w derr :
  fetched (Eval l request w).1.2 = [(None, derr)] ->
  (Eval l request w).1.1 = Panicked nil_dereference /\
  executed (Eval l request w).1.2 = [] /\
  published (Eval l request w).1.2 = [].
Proof.
  destruct (Eval l request w) as [[r tr] w'] eqn:Hrun. simpl.
  destruct (Eval_run _ _ _ _ _ _ Hrun) as (output & derr' & Hf & Hcase).
  intros Hf'. rewrite Hf in Hf'. injection Hf' as -> ->. done.
Qed.
End MainClaims.

(** The two later revisions join the errors of the policy processor without
    setting the status: there a run can report SUCCESS next to an error.
    [src/main.go], which C5 is about, reports FAILURE on the same input. *)
Example later_revisions_report_success_with_an_error :
  (Part_001.Eval (E := Scripted.externals) Scripted.plugin Scripted.request
     Scripted.evaluation_fails).1.1 =
    Returned (Some {| proto.EvalStatus := proto.ExecutionStatus_SUCCESS |},
              Some (JoinError [JoinError [Scripted.evaluation_error];
                               Scripted.evaluation_error])) /\
  (Part_000.Eval (E := Scripted.externals) Scripted.plugin Scripted.request
     Scripted.evaluation_fails).1.1 =
    Returned (Some {| proto.EvalStatus := proto.ExecutionStatus_SUCCESS |},
              Some (JoinError [JoinError [Scripted.evaluation_error];
                               Scripted.evaluation_error])) /\
  (Main_go.Eval (E := Scripted.externals) Scripted.plugin Scripted.request
     Scripted.evaluation_fails).1.1 =
    Returned (Some {| proto.EvalStatus := proto.ExecutionStatus_FAILURE |},
              Some (JoinError [JoinError [Scripted.evaluation_error];
                               Scripted.evaluation_error])).
Proof. repeat split; vm_compute; reflexivity. Qed.

(** C7 at the failing input.  The provider call fails and, as the SDK does,
    hands back no output: [Eval] of [src/main.go] has recorded the error,
    then panics on [output.SecurityGroups] instead of returning FAILURE and
    the error. *)
Theorem fetch_failure_panics :
  fetched (Main_go.Eval (E := Scripted.externals) Scripted.plugin Scripted.request
             Scripted.fetch_fails).1.2 = [(None, Some Scripted.fetch_error)] /\
  (Main_go.Eval (E := Scripted.externals) Scripted.plugin Scripted.request
     Scripted.fetch_fails).1.1 = Panicked nil_dereference.
Proof. split; vm_compute; reflexivity. Qed.

(** C5 at the failing input.  The provider call fails and hands back no
    output.  [Eval] of [src/main.go] records the error, the only one of the
    run, and then panics with nothing published: the run has an accumulated
    error and returns no status and no error at all, neither FAILURE with
    the joined error nor anything else. *)
Theorem accumulated_error_without_a_status :
  errors_of (Main_go.Eval (E := Scripted.externals) Scripted.plugin Scripted.request
               Scripted.fetch_fails).1.2 = [Scripted.fetch_error] /\
  published (Main_go.Eval (E := Scripted.externals) Scripted.plugin Scripted.request
               Scripted.fetch_fails).1.2 = [] /\
  (Main_go.Eval (E := Scripted.externals) Scripted.plugin Scripted.request
     Scripted.fetch_fails).1.1 = Panicked nil_dereference /\
  (forall resp err,
     (Main_go.Eval (E := Scripted.externals) Scripted.plugin Scripted.request
        Scripted.fetch_fails).1.1 <> Returned (resp, err)).
Proof.
  assert ((Main_go.Eval (E := Scripted.externals) Scripted.plugin Scripted.request
             Scripted.fetch_fails).1.1 = Panicked nil_dereference) as Hpanic
    by (vm_compute; reflexivity).
  split; [vm_compute; reflexivity|]. split; [vm_compute; reflexivity|].
  split; [exact Hpanic|].
  intros resp err Hret. rewrite Hpanic in Hret. discriminate Hret.
Qed.

(** The same input sends the revision [part_001] into the same panic. *)
Example part_001_panics_on_fetch_failure :
  (Part_001.Eval (E := Scripted.externals) Scripted.plugin Scripted.request
     Scripted.fetch_fails).1.1 = Panicked nil_dereference.
Proof. vm_compute; reflexivity. Qed.

(** * The iterator revision and a failed fetch *)
Section IteratorRun.
Context {E : Externals}.
Import proto Part_000.

(** With [getSecurityGroups] a failed provider call is yielded as an error:
    the loop body records it and breaks, and [Eval] returns FAILURE with a
    joined error that contains it, having processed no security group and
    sent nothing. *)
Lemma Eval_returns_on_fetch_failure l request w output e :
  fetched (Eval l request w).1.2 = [(output, Some e)] ->
  exists joined,
    (Eval l request w).1.1 =
      Returned (Some {| EvalStatus := ExecutionStatus_FAILURE |}, Some joined) /\
    contains_error joined e /\
    processed (Eval l request w).1.2 = [] /\
    batches_sent (Eval l request w).1.2 = [].
Proof.
  destruct (Eval l request w) as [[r tr] w'] eqn:Hrun. simpl.
  unfold Eval in Hrun.
  apply bind_inv in Hrun as ([x1 x2] & t1 & w1 & t2 & H1 & H2 & ->).
  unfold load_config, call in H1.
  destruct (LoadDefaultConfig w) as [[cfg cerr] w0]. injection H1 as <- <- <- <-.
  apply bind_inv in H2 as (acc1 & t3 & w3 & t4 & H3 & H4 & ->).
  assert (fetched t3 = [] /\ processed t3 = [] /\ batches_sent t3 = [])
    as (Hf3 & Hp3 & Hb3).
  { destruct cerr; unfold bind, logger_Error, ret in H3; by injection H3 as <- <- <-. }
  apply bind_inv in H4 as (res & t5 & w5 & t6 & H5 & H6 & ->).
  unfold getSecurityGroups in H5.
  apply bind_inv in H5 as ([x3 x4] & t7 & w7 & t8 & H7 & H8 & ->).
  unfold describe_security_groups, call in H7.
  destruct (DescribeSecurityGroups cfg w3) as [[out derr] w3'].
  injection H7 as <- <- <- <-.
  unfold fetched, processed, batches_sent in *.
  rewrite !omap_app, Hf3, Hp3, Hb3. simpl.
  intros [= -> ->].
  apply bind_inv in H8 as ([more s'] & t9 & w9 & t10 & H9 & H10 & ->).
  unfold Eval_group, bind, logger_Error, ret in H9. injection H9 as <- <- <- <-.
  unfold ret in H10. injection H10 as <- <- <-.
  simpl in H6. unfold ret in H6. injection H6 as <- <- <-.
  destruct (errors_Join_some (errAcc acc1) e) as (j & Hj & Hc & _).
  exists j. simpl. rewrite <- Hj. done.
Qed.
End IteratorRun.

(** * Security groups with missing optional fields *)
Section Normalizer.
Context {E : Externals}.

(** In the revision [part_001] the subjects of a security group are built
    exactly when its id, its name and its VPC id are all present; a missing
    one is a nil pointer dereference. *)
Lemma group_subjects_panics_iff group :
  (exists reason, Part_001.group_subjects group = Panicked reason) <->
  GroupId group = None \/ GroupName group = None \/ VpcId group = None.
Proof.
  unfold Part_001.group_subjects.
  destruct (GroupId group), (GroupName group), (VpcId group); simpl;
    split; try (intros [r [=]]); try (intros [[=]|[[=]|[=]]]); eauto.
Qed.

(** A security group that lacks one of the three fields stops the run of
    [part_001] with a panic as soon as the loop reaches it. *)
Lemma Eval_groups_panics policyPaths group rest acc w :
  GroupId group = None \/ GroupName group = None \/ VpcId group = None ->
  Part_001.Eval_groups policyPaths (group :: rest) acc w =
    (Panicked nil_dereference, [], w).
Proof.
  unfold Part_001.Eval_groups, Part_001.group_labels, Part_001.group_subjects.
  destruct (GroupId group), (GroupName group), (VpcId group); simpl;
    intros [[=]|[[=]|[=]]]; reflexivity.
Qed.
End Normalizer.

(** C8 at the failing input.  The provider lists one security group that
    has an id and a name but no VPC id: [Eval] of the revision [part_001]
    panics on [*group.VpcId] while it builds the subjects. *)
Theorem missing_vpc_id_panics :
  VpcId Scripted.sg_without_vpc = None /\
  (Part_001.Eval (E := Scripted.externals) Scripted.plugin Scripted.request
     Scripted.world_without_vpc).1.1 = Panicked nil_dereference.
Proof. split; vm_compute; reflexivity. Qed.

(** The other two revisions read the same security group through
    [aws.ToString] and complete the run. *)
Example missing_vpc_id_main_go :
  (Main_go.Eval (E := Scripted.externals) Scripted.plugin Scripted.request
     Scripted.world_without_vpc).1.1 =
  Returned (Some {| proto.EvalStatus := proto.ExecutionStatus_SUCCESS |}, None).
Proof. vm_compute; reflexivity. Qed.

Example missing_vpc_id_part_000 :
  (Part_000.Eval (E := Scripted.externals) Scripted.plugin Scripted.request
     Scripted.world_without_vpc).1.1 =
  Returned (Some {| proto.EvalStatus := proto.ExecutionStatus_SUCCESS |}, None) /\
  Part_000.group_labels Scripted.sg_without_vpc !! "_vpc-id" = Some "".
Proof. split; vm_compute; reflexivity. Qed.

(** * Failures in the revision [part_001] *)
Section BatchRun.
Context {E : Externals}.
Import proto Part_001.



End BatchRun.




(** * The stream identifier *)
Section StreamIdentifier.
Import proto Main_go.




End StreamIdentifier.

(** * More about the evidence assembler of [src/main.go] *)
Section AssemblerFrame.
Context {E : Externals}.
Import proto CallableAssessmentResult Main_go.

Lemma fold_AddFinding_frame {A} (mk : A -> Finding) (xs : list A) (a : AssessmentResult) :
  let a' := fold_left (fun a x => AddFinding (mk x) a) xs a in
  Title a' = Title a /\ Start a' = Start a /\ End_ a' = End_ a /\ Logs a' = Logs a.
Proof.
  revert a. induction xs as [|x xs IH]; intros a; simpl; [done|].
  by destruct (IH (AddFinding (mk x) a)) as (-> & -> & -> & ->).
Qed.

Lemma fold_AddRiskEntry_frame {A} (mk : A -> Risk) (xs : list A) (a : AssessmentResult) :
  let a' := fold_left (fun a x => AddRiskEntry (mk x) a) xs a in
  Title a' = Title a /\ Start a' = Start a /\ End_ a' = End_ a /\ Logs a' = Logs a.
Proof.
  revert a. induction xs as [|x xs IH]; intros a; simpl; [done|].
  by destruct (IH (AddRiskEntry (mk x) a)) as (-> & -> & -> & ->).
Qed.

(** All that one verdict changes in the assessment result. *)
Lemma Eval_result_delta instance ar result w :
  exists o fs,
    Observations (Eval_result instance ar result w).1.1 = Observations ar ++ [o] /\
    Findings (Eval_result instance ar result w).1.1 = Findings ar ++ fs /\
    Risks (Eval_result instance ar result w).1.1 =
      Risks ar ++ map risk_entry (policyManager.Risks result) /\
    ObsLabels o = artifact_labels (package_of result) (sgid_of instance) /\
    Forall (fun f => FindingLabels f =
                       artifact_labels (package_of result) (sgid_of instance)) fs /\
    length fs = match policyManager.Violations result with
                | [] => 1
                | vs => length vs
                end /\
    (Title (Eval_result instance ar result w).1.1 = Title ar /\
     Start (Eval_result instance ar result w).1.1 = Start ar /\
     End_ (Eval_result instance ar result w).1.1 = End_ ar /\
     Logs (Eval_result instance ar result w).1.1 = Logs ar) /\
    length (drawn (Eval_result instance ar result w).1.2) = 1 /\
    length (readings (Eval_result instance ar result w).1.2) = 2.
Proof.
  assert (policyManager.Violations result = [] \/
          policyManager.Violations result <> []) as [Hvs|Hne]
    by (destruct (policyManager.Violations result); [by left | by right]).
  - destruct (Eval_result_satisfied instance ar result w Hvs)
      as (id & w1 & c & w2 & e & w3 & _ & _ & _ & ->).
    exists (satisfied_observation id c e (package_of result) (sgid_of instance)),
      [satisfied_finding (package_of result) (sgid_of instance)].
    simpl.
    match goal with
    | |- context [fold_left ?f (policyManager.Risks result) ?a] =>
        destruct (fold_AddRiskEntry risk_entry (policyManager.Risks result) a)
          as (-> & -> & ->);
        destruct (fold_AddRiskEntry_frame risk_entry (policyManager.Risks result) a)
          as (-> & -> & -> & ->)
    end.
    simpl. rewrite Hvs. repeat split; try done. by repeat constructor.
  - destruct (Eval_result_violations instance ar result w Hne)
      as (id & w1 & c & w2 & e & w3 & _ & _ & _ & ->).
    exists (violations_observation id c e (package_of result) (sgid_of instance)
              (length (policyManager.Violations result))),
      (map (violation_finding id (package_of result) (sgid_of instance))
         (policyManager.Violations result)).
    simpl.
    match goal with
    | |- context [fold_left ?f (policyManager.Risks result) ?a] =>
        destruct (fold_AddRiskEntry risk_entry (policyManager.Risks result) a)
          as (-> & -> & ->);
        destruct (fold_AddRiskEntry_frame risk_entry (policyManager.Risks result) a)
          as (-> & -> & -> & ->)
    end.
    match goal with
    | |- context [fold_left ?f (policyManager.Violations result) ?a] =>
        destruct (fold_AddFinding
                    (violation_finding id (package_of result) (sgid_of instance))
                    (policyManager.Violations result) a) as (-> & -> & ->);
        destruct (fold_AddFinding_frame
                    (violation_finding id (package_of result) (sgid_of instance))
                    (policyManager.Violations result) a) as (-> & -> & -> & ->)
    end.
    simpl. rewrite length_map.
    split; [done|]. split; [done|]. split; [done|]. split; [done|].
    split.
    { apply Forall_forall. intros f Hf.
      apply list_elem_of_fmap in Hf as (x & -> & _). done. }
    split; [by destruct (policyManager.Violations result)|].
    done.
Qed.

Lemma artifact_labels_lookups package sgid :
  artifact_labels package sgid !! "package" = Some package /\
  artifact_labels package sgid !! "type" = Some "aws" /\
  artifact_labels package sgid !! "service" = Some "security-groups" /\
  artifact_labels package sgid !! "security_group_id" = Some sgid /\
  dom (artifact_labels package sgid) =
    ({["package"; "type"; "service"; "security_group_id"]} : gset string).
Proof.
  unfold artifact_labels. repeat split; by simplify_map_eq.
Qed.
End AssemblerFrame.

Section AssemblerExtras.
Import proto CallableAssessmentResult Main_go.

(** All that the verdicts of one pair change in the assessment result. *)
Lemma Eval_results_delta {E : Externals} instance results ar w :
  exists os fs rs,
    Observations (for_range (Eval_result instance) results ar w).1.1 =
      Observations ar ++ os /\
    Findings (for_range (Eval_result instance) results ar w).1.1 = Findings ar ++ fs /\
    Risks (for_range (Eval_result instance) results ar w).1.1 = Risks ar ++ rs /\
    (length os = length results /\ length fs = findings_expected results /\
     length rs = risks_expected results) /\
    (Title (for_range (Eval_result instance) results ar w).1.1 = Title ar /\
     Start (for_range (Eval_result instance) results ar w).1.1 = Start ar /\
     End_ (for_range (Eval_result instance) results ar w).1.1 = End_ ar /\
     Logs (for_range (Eval_result instance) results ar w).1.1 = Logs ar) /\
    length (drawn (for_range (Eval_result instance) results ar w).1.2) = length results /\
    length (readings (for_range (Eval_result instance) results ar w).1.2) =
      2 * length results.
Proof.
  revert ar w. induction results as [|result results IH]; intros ar w.
  - exists [], [], []. simpl. by rewrite !app_nil_r.
  - destruct (for_range (Eval_result instance) (result :: results) ar w)
      as [[ar2 tr] w2] eqn:Hrun.
    apply for_range_cons_inv in Hrun as (ar1 & t1 & w1 & t2 & Hb & Hrest & ->).
    destruct (Eval_result_delta instance ar result w)
      as (o & fs1 & Ho & Hf & Hr & _ & _ & Hlen & (Ht & Hs & He & Hl) & Hd & Hn).
    rewrite Hb in Ho, Hf, Hr, Ht, Hs, He, Hl, Hd, Hn. simpl in *.
    destruct (IH ar1 w1)
      as (os & fs & rs & Ho' & Hf' & Hr' & (Hlo & Hlf & Hlr) & (Ht' & Hs' & He' & Hl') &
          Hd' & Hn').
    rewrite Hrest in Ho', Hf', Hr', Ht', Hs', He', Hl', Hd', Hn'. simpl in *.
    exists (o :: os), (fs1 ++ fs), (map risk_entry (policyManager.Risks result) ++ rs).
    rewrite Ho', Hf', Hr', Ho, Hf, Hr, Ht', Hs', He', Hl', Ht, Hs, He, Hl.
    unfold drawn, readings in *. rewrite !omap_app, !length_app, Hd, Hn, Hd', Hn'.
    split; [by rewrite <- app_assoc|]. split; [by rewrite <- app_assoc|].
    split; [by rewrite <- app_assoc|].
    split.
    { unfold findings_expected, risks_expected in *. simpl in *.
      rewrite ?length_app, length_map, Hlen, Hlo, Hlf, Hlr. done. }
    split; [done|]. simpl. lia.
Qed.

(** X1.  The observations and findings that one verdict adds all carry the
    same label set: the policy's package, the type "aws", the service
    "security-groups" and the id of the security group, and nothing else. *)
Theorem artifacts_of_a_verdict_share_their_labels :
  forall (E : Externals) instance ar result w,
    exists os fs,
      Observations (Eval_result instance ar result w).1.1 = Observations ar ++ os /\
      Findings (Eval_result instance ar result w).1.1 = Findings ar ++ fs /\
      Forall (fun o => ObsLabels o =
                         artifact_labels (package_of result) (SecurityGroupID instance)) os /\
      Forall (fun f => FindingLabels f =
                         artifact_labels (package_of result) (SecurityGroupID instance)) fs /\
      artifact_labels (package_of result) (SecurityGroupID instance) !! "package"
        = Some (policyManager.Package (policyManager.ResultPolicy result)) /\
      artifact_labels (package_of result) (SecurityGroupID instance) !! "type"
        = Some "aws" /\
      artifact_labels (package_of result) (SecurityGroupID instance) !! "service"
        = Some "security-groups" /\
      artifact_labels (package_of result) (SecurityGroupID instance) !! "security_group_id"
        = Some (SecurityGroupID instance) /\
      dom (artifact_labels (package_of result) (SecurityGroupID instance)) =
        ({["package"; "type"; "service"; "security_group_id"]} : gset string).
Proof.
  intros E instance ar result w.
  destruct (Eval_result_delta instance ar result w)
    as (o & fs & Ho & Hf & _ & Hol & Hfl & _).
  destruct (artifact_labels_lookups (package_of result) (SecurityGroupID instance))
    as (H1 & H2 & H3 & H4 & H5).
  exists [o], fs. repeat split; try done. by repeat constructor.
Qed.

(** X2.  The verdicts of one pair add one observation each, one finding
    per violation and one for each verdict without violations, and one risk
    per risk entry. *)
Theorem artifacts_of_a_pair_are_counted :
  forall (E : Externals) instance results ar w,
    length (Observations (for_range (Eval_result instance) results ar w).1.1) =
      length (Observations ar) + length results /\
    length (Findings (for_range (Eval_result instance) results ar w).1.1) =
      length (Findings ar) + findings_expected results /\
    length (Risks (for_range (Eval_result instance) results ar w).1.1) =
      length (Risks ar) + risks_expected results.
Proof.
  intros E instance results ar w.
  destruct (Eval_results_delta instance results ar w)
    as (os & fs & rs & -> & -> & -> & (Hlo & Hlf & Hlr) & _).
  rewrite !length_app. lia.
Qed.

(** X3.  Assembling verdicts only appends: the observations, findings and
    risks the assessment result held before stay where they were, and its
    title, start, end and log entries are not touched. *)
Theorem assembling_only_appends :
  forall (E : Externals) instance results ar w,
    Observations ar `prefix_of`
      Observations (for_range (Eval_result instance) results ar w).1.1 /\
    Findings ar `prefix_of`
      Findings (for_range (Eval_result instance) results ar w).1.1 /\
    Risks ar `prefix_of` Risks (for_range (Eval_result instance) results ar w).1.1 /\
    Title (for_range (Eval_result instance) results ar w).1.1 = Title ar /\
    Start (for_range (Eval_result instance) results ar w).1.1 = Start ar /\
    End_ (for_range (Eval_result instance) results ar w).1.1 = End_ ar /\
    Logs (for_range (Eval_result instance) results ar w).1.1 = Logs ar.
Proof.
  intros E instance results ar w.
  destruct (Eval_results_delta instance results ar w)
    as (os & fs & rs & -> & -> & -> & _ & (Ht & Hs & He & Hl) & _).
  repeat split; try done; by eexists.
Qed.
End AssemblerExtras.

(** * More about the run of [src/main.go] *)
Section MainRunExtras.
Context {E : Externals}.
Import proto CallableAssessmentResult Main_go.

(** The trace of a run: what [Eval] does before its loops, one debug line
    per security group, one more, and the trace of the loops. *)
Lemma Eval_decompose l request w :
  exists startTime cerr output derr,
    match output with
    | None =>
        (Eval l request w).1.1 = Panicked nil_dereference /\
        (Eval l request w).1.2 = Eval_prefix startTime cerr None derr
    | Some out =>
        exists w3,
          (Eval l request w).1.2 =
            Eval_prefix startTime cerr (Some out) derr ++
            map (fun _ => EvLog LevelDebug "SG ID: ") (SecurityGroups out) ++
            [EvLog LevelDebug "evaluating data"] ++
            (Eval_loop startTime (GetPolicyPaths request)
               (map instance_of (SecurityGroups out)) (Acc_after cerr derr) w3).1.2
    end.
Proof.
  destruct (Eval l request w) as [[r tr] w'] eqn:Hrun. simpl.
  unfold Eval in Hrun.
  apply bind_inv in Hrun as (x1 & t1 & w1 & t2 & H1 & H2 & ->).
  unfold now, call in H1. destruct (time_Now w) as [startTime w0].
  injection H1 as <- <- <-.
  apply bind_inv in H2 as ([x2 x3] & t3 & w3 & t4 & H3 & H4 & ->).
  unfold load_config, call in H3.
  destruct (LoadDefaultConfig w0) as [[cfg cerr] w0']. injection H3 as <- <- <- <-.
  apply bind_inv in H4 as (acc1 & t5 & w5 & t6 & H5 & H6 & ->).
  apply bind_inv in H6 as ([x4 x5] & t7 & w7 & t8 & H7 & H8 & ->).
  unfold describe_security_groups, call in H7.
  destruct (DescribeSecurityGroups cfg w5) as [[output derr] w5'].
  injection H7 as <- <- <- <-.
  apply bind_inv in H8 as (acc2 & t9 & w9 & t10 & H9 & H10 & ->).
  exists startTime, cerr, output, derr.
  assert ([EvNow startTime] ++ [EvLoadDefaultConfig cerr] ++ t5 ++
          [EvDescribeSecurityGroups output derr] ++ t9 ++ t10 =
          Eval_prefix startTime cerr output derr ++ t10 /\
          acc2 = Acc_after cerr derr) as (-> & ->).
  { unfold Eval_prefix, Acc_after.
    destruct cerr, derr; unfold bind, logger_Error, ret in H5, H9;
      injection H5 as <- <- <-; injection H9 as <- <- <-; done. }
  clear H5 H9.
  destruct output as [out|].
  - apply bind_inv in H10 as (instances & t11 & w11 & t12 & H11 & H12 & ->).
    rewrite instances_run in H11. injection H11 as <- <- <-.
    apply bind_inv in H12 as ([] & t13 & w13 & t14 & H13 & H14 & ->).
    unfold logger_Debug in H13. injection H13 as <- <-.
    apply bind_inv in H14 as (acc3 & t15 & w15 & t16 & H15 & H16 & ->).
    unfold ret in H16. injection H16 as <- <- <-.
    match type of H15 with
    | Eval_loop _ _ _ _ ?w0 = _ => exists w0
    end.
    rewrite H15. simpl. by rewrite app_nil_r.
  - unfold ret in H10. injection H10 as <- <- <-. by rewrite app_nil_r.
Qed.

(** A property of traces that the empty trace has and that concatenation
    keeps holds of the loops as soon as it holds of every pair. *)
Lemma Eval_loop_lift (P : list Event -> Prop) startTime :
  P [] -> (forall a b, P a -> P b -> P (a ++ b)) ->
  (forall instance acc policyPath w,
     P (Eval_policy startTime instance acc policyPath w).1.2) ->
  forall policyPaths instances acc w,
    P (Eval_loop startTime policyPaths instances acc w).1.2.
Proof.
  intros Hnil Happ Hpair policyPaths instances.
  assert (forall instance ps acc w,
            P (for_range (Eval_policy startTime instance) ps acc w).1.2) as Hinner.
  { intros instance ps. induction ps as [|p ps IH]; intros acc w; [done|].
    destruct (for_range (Eval_policy startTime instance) (p :: ps) acc w)
      as [[a tr] w'] eqn:Hrun.
    apply for_range_cons_inv in Hrun as (a1 & t1 & w1 & t2 & Hb & Hrest & ->).
    simpl. apply Happ.
    - specialize (Hpair instance acc p w). by rewrite Hb in Hpair.
    - specialize (IH a1 w1). by rewrite Hrest in IH. }
  unfold Eval_loop.
  induction instances as [|i rest IH]; intros acc w; [done|].
  match goal with
  | |- P (?run).1.2 => destruct run as [[a tr] w'] eqn:Hrun
  end.
  apply for_range_cons_inv in Hrun as (a1 & t1 & w1 & t2 & Hb & Hrest & ->).
  simpl. apply Happ.
  - specialize (Hinner i policyPaths acc w). by rewrite Hb in Hinner.
  - specialize (IH a1 w1). by rewrite Hrest in IH.
Qed.

(** The same for the whole run: its trace is what comes before the loops
    followed by a trace with the property, which may depend on the start of
    the run. *)
Lemma Eval_lift (P : Time -> list Event -> Prop) l request w :
  (forall st, P st []) -> (forall st a b, P st a -> P st b -> P st (a ++ b)) ->
  (forall st msg, P st [EvLog LevelDebug msg]) ->
  (forall startTime instance acc policyPath w,
     P startTime (Eval_policy startTime instance acc policyPath w).1.2) ->
  exists startTime cerr output derr tl,
    (Eval l request w).1.2 = Eval_prefix startTime cerr output derr ++ tl /\
    P startTime tl.
Proof.
  intros Hnil Happ Hlog Hpair.
  destruct (Eval_decompose l request w) as (startTime & cerr & output & derr & Hd).
  exists startTime, cerr, output, derr.
  destruct output as [out|].
  - destruct Hd as (w3 & ->). eexists. split; [reflexivity|].
    apply Happ; [|apply Happ].
    + induction (SecurityGroups out) as [|g gs IH]; simpl; [done|].
      apply (Happ _ [_]); [|done]. apply Hlog.
    + apply Hlog.
    + apply (Eval_loop_lift (P startTime)); auto.
  - destruct Hd as (_ & ->). exists []. by rewrite app_nil_r.
Qed.

(** The trace of one pair, spelled out. *)
Lemma Eval_policy_trace startTime instance acc policyPath w :
  exists results eerr w1,
    match eerr with
    | Some _ =>
        (Eval_policy startTime instance acc policyPath w).1.2 =
          [EvExecute policyPath instance results eerr;
           EvLog LevelError "policy evaluation failed"]
    | None =>
        exists endTime tail,
          (Eval_policy startTime instance acc policyPath w).1.2 =
            [EvExecute policyPath instance results None] ++
            (for_range (Eval_result instance) results
               (SetTitle "Security Group checks - AWS plugin" New) w1).1.2 ++
            [EvNow endTime] ++ tail /\
          ((exists sid serr,
              tail = [EvSeededUUID (stream_seed policyPath (sgid_of instance)) sid
                        (Some serr);
                      EvLog LevelError "Failed to seedUUID"]) \/
           (exists sid perr logs,
              tail =
                [EvSeededUUID (stream_seed policyPath (sgid_of instance)) sid None;
                 EvCreateResult (UUID_String sid)
                   (result_labels policyPath (sgid_of instance)) policyPath
                   (Result
                      (AddLogEntry
                         {| EntryTitle := Some "Template check";
                            EntryDescription :=
                              Some "Template plugin checks completed successfully";
                            EntryStart := timestamppb_New startTime;
                            EntryEnd := timestamppb_New endTime |}
                         (SetEnd (timestamppb_New endTime)
                            (SetStart (timestamppb_New startTime)
                               (for_range (Eval_result instance) results
                                  (SetTitle "Security Group checks - AWS plugin" New)
                                  w1).1.1))))
                   perr] ++ logs /\
              Forall (fun e => exists msg, e = EvLog LevelError msg) logs))
    end.
Proof.
  destruct (Eval_policy startTime instance acc policyPath w) as [[acc' tr] w'] eqn:Hrun.
  simpl. unfold Eval_policy, execute, call in Hrun.
  apply bind_inv in Hrun as ([x1 x2] & t1 & w1 & t2 & H1 & H2 & ->).
  destruct (Execute policyPath instance w) as [[results eerr] w0] eqn:Hexec.
  injection H1 as <- <- <- <-.
  exists results, eerr, w0.
  destruct eerr as [e|].
  { unfold bind, logger_Error, ret in H2. by injection H2 as <- <- <-. }
  apply bind_inv in H2 as (ar & t3 & w3 & t4 & H3 & H4 & ->).
  rewrite H3. simpl.
  apply bind_inv in H4 as (x3 & t5 & w5 & t6 & H5 & H6 & ->).
  unfold now, call in H5. destruct (time_Now w3) as [endTime w6].
  injection H5 as <- <- <-.
  apply bind_inv in H6 as ([x4 x5] & t7 & w7 & t8 & H7 & H8 & ->).
  unfold seeded_uuid in H7.
  destruct (SeededUUID (stream_seed policyPath (sgid_of instance))) as [sid serr].
  injection H7 as <- <- <- <-.
  exists endTime. eexists. split; [reflexivity|].
  destruct serr as [se|].
  { left. unfold bind, logger_Error, ret in H8. injection H8 as <- <- <-.
    by exists sid, se. }
  right.
  apply bind_inv in H8 as (perr & t9 & w9 & t10 & H9 & H10 & ->).
  unfold create_result, call in H9.
  match type of H9 with
  | (let '(_, _) := ?c in _) = _ => destruct c as [perr0 w10]
  end.
  injection H9 as <- <- <-.
  exists sid, perr0, t10. split; [done|].
  destruct perr0.
  - unfold bind, logger_Error, ret in H10. injection H10 as <- <- <-.
    repeat constructor. by eexists.
  - unfold ret in H10. injection H10 as <- <- <-. constructor.
Qed.


Lemma verdicts_returned_app a b :
  verdicts_returned (a ++ b) = verdicts_returned a ++ verdicts_returned b.
Proof. unfold verdicts_returned. by rewrite omap_app, join_app. Qed.

(** Assembling verdicts calls the UUID generator and the clock, nothing
    else. *)
Lemma assembly_trace instance results ar w :
  Forall (fun e => match e with
                   | EvUuid _ | EvNow _ => True
                   | _ => False
                   end)
    (for_range (Eval_result instance) results ar w).1.2.
Proof.
  revert ar w. induction results as [|result results IH]; intros ar w; [constructor|].
  destruct (for_range (Eval_result instance) (result :: results) ar w)
    as [[a tr] w'] eqn:Hrun.
  apply for_range_cons_inv in Hrun as (a1 & t1 & w1 & t2 & Hb & Hrest & ->).
  simpl. apply Forall_app. split.
  - destruct (Eval_result_shape instance ar result w)
      as (id & wa & c & wb & e & wc & o & _ & _ & _ & Hs).
    rewrite Hb in Hs. destruct Hs as (-> & _). by repeat constructor.
  - specialize (IH a1 w1). by rewrite Hrest in IH.
Qed.

Lemma quiet_projections (tr : list Event) :
  Forall (fun e => match e with
                   | EvUuid _ | EvNow _ | EvLog _ _ => True
                   | _ => False
                   end) tr ->
  results_sent tr = [] /\ verdicts_returned tr = [] /\ evaluated tr = [] /\
  configured tr = [] /\ executed tr = [] /\ published tr = [].
Proof.
  induction 1 as [|e tr He _ IH]; [done|].
  destruct IH as (? & ? & ? & ? & ? & ?).
  unfold results_sent, verdicts_returned, evaluated, configured, executed, published in *.
  destruct e; simpl in *; done.
Qed.

Lemma assembly_projections instance results ar w :
  results_sent (for_range (Eval_result instance) results ar w).1.2 = [] /\
  verdicts_returned (for_range (Eval_result instance) results ar w).1.2 = [] /\
  evaluated (for_range (Eval_result instance) results ar w).1.2 = [] /\
  configured (for_range (Eval_result instance) results ar w).1.2 = [].
Proof.
  destruct (quiet_projections (for_range (Eval_result instance) results ar w).1.2)
    as (? & ? & ? & ? & _); [|done].
  eapply Forall_impl; [apply assembly_trace|]. by intros [].
Qed.

Lemma error_logs_projections (logs : list Event) :
  Forall (fun e => exists msg, e = EvLog LevelError msg) logs ->
  results_sent logs = [] /\ verdicts_returned logs = [] /\ evaluated logs = [] /\
  configured logs = [] /\ drawn logs = [] /\ readings logs = [].
Proof.
  intros Hlogs.
  destruct (quiet_projections logs) as (? & ? & ? & ? & _).
  { eapply Forall_impl; [exact Hlogs|]. by intros e [msg ->]. }
  repeat split; try done.
  - clear -Hlogs. induction Hlogs as [|e tr [msg ->] _ IH]; done.
  - clear -Hlogs. induction Hlogs as [|e tr [msg ->] _ IH]; done.
Qed.

(** [closings] lists the results that were sent, whatever the reading it
    starts from. *)
Lemma closings_results_sent last (tr : list Event) :
  (closings last tr).*2 = results_sent tr.
Proof.
  unfold results_sent, omap. revert last.
  induction tr as [|e tr IH]; intros last; [done|].
  destruct e; simpl; try apply IH. f_equal. apply IH.
Qed.

(** A stretch of trace in which nothing is sent leaves [closings] with some
    reading or none, and a reading at its end with that one. *)
Lemma closings_skip last (quiet rest : list Event) :
  results_sent quiet = [] ->
  exists last', closings last (quiet ++ rest) = closings last' rest.
Proof.
  unfold results_sent, omap. revert last.
  induction quiet as [|e quiet IH]; intros last Hq; [by exists last|].
  destruct e; simpl in *; try done; by apply IH.
Qed.

Lemma closings_skip_to_reading last (quiet rest : list Event) t :
  results_sent quiet = [] ->
  closings last (quiet ++ EvNow t :: rest) = closings (Some t) rest.
Proof.
  unfold results_sent, omap. revert last.
  induction quiet as [|e quiet IH]; intros last Hq; [done|].
  destruct e; simpl in *; try done; by apply IH.
Qed.

(** A property of all the closings of two traces, from whatever reading
    the second starts, holds of their concatenation. *)
Lemma closings_app (Q : option Time * AssessmentResult -> Prop) last (a b : list Event) :
  Forall Q (closings last a) ->
  (forall last', Forall Q (closings last' b)) ->
  Forall Q (closings last (a ++ b)).
Proof.
  intros Ha Hb. revert last Ha.
  induction a as [|e a IH]; intros last Ha; [apply Hb|].
  destruct e; simpl in *; try by apply IH.
  apply Forall_cons in Ha as [Hq Ha]. constructor; [done|]. by apply IH.
Qed.

(** What one pair sends carries the envelope of the run, and ends at the
    reading taken for it, the last one of the pair. *)
Lemma Eval_policy_envelope startTime instance acc policyPath w last :
  Forall (result_envelope startTime)
    (closings last (Eval_policy startTime instance acc policyPath w).1.2).
Proof.
  destruct (Eval_policy_trace startTime instance acc policyPath w)
    as (results & eerr & w1 & Htr).
  destruct eerr as [e|]; [rewrite Htr; constructor|].
  destruct Htr as (endTime & tail & -> & Htail).
  destruct (assembly_projections instance results
              (SetTitle "Security Group checks - AWS plugin" New) w1) as (Hs & _).
  simpl. rewrite closings_skip_to_reading by done.
  destruct Htail as [(sid & serr & ->)|(sid & perr & logs & -> & Hlogs)].
  { constructor. }
  apply error_logs_projections in Hlogs as (Hl & _).
  simpl. constructor.
  - destruct (Eval_results_delta instance results
                (SetTitle "Security Group checks - AWS plugin" New) w1)
      as (os & fs & rs & _ & _ & _ & _ & (Ht & _ & _ & Hlg) & _).
    unfold result_envelope, Result. simpl. rewrite Ht, Hlg. simpl.
    split; [done|]. split; [done|]. by exists endTime.
  - destruct (closings_skip None logs [] Hl) as (last' & Hskip).
    rewrite app_nil_r in Hskip. rewrite Hskip. constructor.
Qed.

(** One pair draws one UUID per verdict it was answered with, and reads the
    clock twice per verdict and once more if the evaluation did not fail. *)
Lemma Eval_policy_counts startTime instance acc policyPath w :
  length (drawn (Eval_policy startTime instance acc policyPath w).1.2) =
    length (verdicts_returned (Eval_policy startTime instance acc policyPath w).1.2) /\
  length (readings (Eval_policy startTime instance acc policyPath w).1.2) =
    2 * length (verdicts_returned (Eval_policy startTime instance acc policyPath w).1.2) +
    length (evaluated (Eval_policy startTime instance acc policyPath w).1.2) /\
  configured (Eval_policy startTime instance acc policyPath w).1.2 = [].
Proof.
  destruct (Eval_policy_trace startTime instance acc policyPath w)
    as (results & eerr & w1 & Htr).
  destruct eerr as [e|]; [by rewrite Htr|].
  destruct Htr as (endTime & tail & -> & Htail).
  destruct (assembly_projections instance results
              (SetTitle "Security Group checks - AWS plugin" New) w1)
    as (_ & Hv & He & Hc).
  destruct (Eval_results_delta instance results
              (SetTitle "Security Group checks - AWS plugin" New) w1)
    as (os & fs & rs & _ & _ & _ & _ & _ & Hd & Hn).
  rewrite !verdicts_returned_app, Hv.
  unfold drawn, readings, evaluated, configured in *.
  rewrite !omap_app, !length_app, Hd, Hn, He, Hc.
  destruct Htail as [(sid & serr & ->)|(sid & perr & logs & -> & Hlogs)].
  - unfold verdicts_returned. simpl. rewrite app_nil_r. repeat split; lia.
  - apply error_logs_projections in Hlogs as (_ & Hlv & Hle & Hlc & Hld & Hln).
    rewrite verdicts_returned_app, Hlv.
    unfold drawn, readings, evaluated, configured in *.
    rewrite !omap_app, Hle, Hlc, Hld, Hln.
    unfold verdicts_returned. simpl. rewrite app_nil_r. repeat split; lia.
Qed.

End MainRunExtras.

Section MainRunTheorems.
Import proto CallableAssessmentResult Main_go.

Lemma length_all_pairs (policyPaths : list string) (instances : list Instance) :
  length (all_pairs policyPaths instances) = length instances * length policyPaths.
Proof.
  unfold all_pairs. induction instances as [|i rest IH]; simpl; [done|].
  by rewrite length_app, length_map, IH.
Qed.

Lemma evaluated_le_executed {E : Externals} (tr : list Event) :
  length (evaluated tr) <= length (executed tr).
Proof.
  unfold evaluated, executed, omap.
  induction tr as [|e tr IH]; [done|].
  destruct e as [| | | | |p i results [err|]| | | | | |]; simpl in *; lia.
Qed.

Lemma length_omap_le {A B} (f : A -> option B) (xs : list A) :
  length (omap f xs) <= length xs.
Proof.
  unfold omap. induction xs as [|x xs IH]; [done|].
  simpl in *. destruct (f x); simpl; lia.
Qed.

(** X4.  Every assessment result a run hands to the sink is titled
    "Security Group checks - AWS plugin" and starts at the first clock
    reading of the run.  It ends at a reading of its own: the one taken last
    before it is sent, which comes after the result sent before it.  It
    carries exactly one log entry, which spans the same start and end. *)
Theorem published_results_carry_the_run_envelope :
  forall (E : Externals) l request w,
    exists startTime,
      head (readings (Eval l request w).1.2) = Some startTime /\
      (closings None (Eval l request w).1.2).*2 = results_sent (Eval l request w).1.2 /\
      Forall (result_envelope startTime) (closings None (Eval l request w).1.2).
Proof.
  intros E l request w.
  destruct (Eval_lift
              (fun st tr => forall last, Forall (result_envelope st) (closings last tr))
              l request w)
    as (startTime & cerr & output & derr & tl & Htr & Htl).
  - constructor.
  - intros st a b Ha Hb last. by apply closings_app.
  - constructor.
  - intros. apply Eval_policy_envelope.
  - exists startTime. split; [|split].
    + rewrite Htr. done.
    + apply closings_results_sent.
    + rewrite Htr.
      destruct (closings_skip None (Eval_prefix startTime cerr output derr) tl)
        as (last' & ->); [|apply Htl].
      unfold Eval_prefix. by destruct cerr, derr.
Qed.

(** X5.  A run that gets the provider's output calls the evaluator once
    for each security group and policy: nothing is evaluated exactly when
    there is no security group or no policy; and it never publishes more
    pairs than were evaluated without error. *)
Theorem every_pair_is_evaluated_once :
  forall (E : Externals) l request w out derr,
    fetched (Eval l request w).1.2 = [(Some out, derr)] ->
    length (executed (Eval l request w).1.2) =
      length (SecurityGroups out) * length (GetPolicyPaths request) /\
    (executed (Eval l request w).1.2 = [] <->
       SecurityGroups out = [] \/ GetPolicyPaths request = []) /\
    length (published (Eval l request w).1.2) <=
      length (evaluated (Eval l request w).1.2) <=
      length (executed (Eval l request w).1.2).
Proof.
  intros E l request w out derr.
  destruct (Eval l request w) as [[r tr] w'] eqn:Hrun. simpl.
  destruct (Eval_run _ _ _ _ _ _ Hrun) as (output & derr' & Hf & Hcase).
  intros Hf'. rewrite Hf in Hf'. injection Hf' as -> ->.
  destruct Hcase as (_ & (_ & Hpub & _) & Hx).
  assert (length (executed tr) =
          length (SecurityGroups out) * length (GetPolicyPaths request)) as Hlen.
  { by rewrite Hx, length_all_pairs, length_map. }
  split; [done|]. split.
  - split.
    + intros Hnil. rewrite Hnil in Hlen. simpl in Hlen.
      destruct (SecurityGroups out), (GetPolicyPaths request); simpl in Hlen;
        auto; lia.
    + intros Hempty. apply length_zero_iff_nil. rewrite Hlen.
      destruct Hempty as [-> | ->]; simpl; lia.
  - rewrite Hpub. split; [apply length_omap_le | apply evaluated_le_executed].
Qed.

(** X6.  A run draws exactly one UUID per verdict the evaluator answered
    with, and reads the clock once at its start, twice per verdict and once
    more for each pair evaluated without error. *)
Theorem one_uuid_per_verdict :
  forall (E : Externals) l request w,
    length (drawn (Eval l request w).1.2) =
      length (verdicts_returned (Eval l request w).1.2) /\
    length (readings (Eval l request w).1.2) =
      1 + 2 * length (verdicts_returned (Eval l request w).1.2) +
      length (evaluated (Eval l request w).1.2).
Proof.
  intros E l request w.
  destruct (Eval_lift
              (fun _ tr =>
                 length (drawn tr) = length (verdicts_returned tr) /\
                 length (readings tr) =
                   2 * length (verdicts_returned tr) + length (evaluated tr))
              l request w)
    as (startTime & cerr & output & derr & tl & -> & Hd & Hn).
  - done.
  - intros _ a b (Ha1 & Ha2) (Hb1 & Hb2).
    rewrite verdicts_returned_app. unfold drawn, readings, evaluated in *.
    rewrite !omap_app, !length_app. lia.
  - done.
  - intros. destruct (Eval_policy_counts startTime instance acc policyPath w0)
      as (? & ? & _). done.
  - rewrite verdicts_returned_app. unfold drawn, readings, evaluated in *.
    rewrite !omap_app, !length_app, Hd, Hn.
    unfold Eval_prefix, verdicts_returned. destruct cerr, derr; simpl; lia.
Qed.

(** X7.  Every run loads the configuration once and asks the provider once,
    also when loading the configuration failed; the security groups the
    provider then lists are evaluated against every policy all the same. *)
Theorem provider_is_asked_even_without_configuration :
  forall (E : Externals) l request w,
    exists cerr output derr,
      configured (Eval l request w).1.2 = [cerr] /\
      fetched (Eval l request w).1.2 = [(output, derr)] /\
      forall out,
        output = Some out ->
        executed (Eval l request w).1.2 =
          all_pairs (GetPolicyPaths request) (map instance_of (SecurityGroups out)).
Proof.
  intros E l request w.
  destruct (Eval_lift (fun _ tr => configured tr = []) l request w)
    as (startTime & cerr & output & derr & tl & Htr & Hc).
  - done.
  - intros _ a b Ha Hb. unfold configured in *. by rewrite omap_app, Ha, Hb.
  - done.
  - intros. by destruct (Eval_policy_counts startTime instance acc policyPath w0)
      as (_ & _ & ?).
  - assert (configured (Eval l request w).1.2 = [cerr]) as Hconf.
    { rewrite Htr. unfold configured in *. rewrite omap_app, Hc.
      unfold Eval_prefix. by destruct cerr, derr. }
    clear Htr.
    destruct (Eval l request w) as [[r tr] w'] eqn:Hrun. simpl in *.
    destruct (Eval_run _ _ _ _ _ _ Hrun) as (output' & derr' & Hf & Hcase).
    exists cerr, output', derr'. split; [done|]. split; [done|].
    intros out ->. by destruct Hcase as (_ & _ & ?).
Qed.
End MainRunTheorems.

(** In the scripted run with two verdicts per pair, the clock is read five
    times per pair after the reading that starts the run; the four results
    end at the last reading of their pair, four different instants. *)
Example results_end_at_their_own_readings :
  (closings (E := Scripted.externals) None
     (Main_go.Eval (E := Scripted.externals) Scripted.plugin Scripted.request
        Scripted.busy_world).1.2).*1 =
    [Some (Scripted.jan15 + 5000)%Z; Some (Scripted.jan15 + 10000)%Z;
     Some (Scripted.jan15 + 15000)%Z; Some (Scripted.jan15 + 20000)%Z] /\
  proto.End_ <$>
    results_sent (E := Scripted.externals)
      (Main_go.Eval (E := Scripted.externals) Scripted.plugin Scripted.request
         Scripted.busy_world).1.2 =
    [Some {| proto.Seconds := 1705276800; proto.Nanos := 5000 |};
     Some {| proto.Seconds := 1705276800; proto.Nanos := 10000 |};
     Some {| proto.Seconds := 1705276800; proto.Nanos := 15000 |};
     Some {| proto.Seconds := 1705276800; proto.Nanos := 20000 |}].
Proof. split; vm_compute; reflexivity. Qed.

(** * The stream identifier of [src/main.go] *)
Section StreamIdentifierRun.
Import proto CallableAssessmentResult Main_go.


End StreamIdentifierRun.



(** * The run of the iterator revision ([part_000]) *)
Section IteratorRunExtras.
Context {E : Externals}.
Import proto Part_000.

Lemma absorb_errAcc_congr (a1 a2 : Acc) (es : list error) :
  errAcc a1 = errAcc a2 -> errAcc (absorb a1 es) = errAcc (absorb a2 es).
Proof.
  revert a1 a2. induction es as [|x es IH]; intros a1 a2 Heq; simpl; [done|].
  apply IH. simpl. by rewrite Heq.
Qed.

Lemma length_group_pairs (policyPaths : list string) (groups : list SecurityGroup) :
  length (group_pairs policyPaths groups) = length groups * length policyPaths.
Proof.
  unfold group_pairs. induction groups as [|g rest IH]; simpl; [done|].
  by rewrite length_app, length_map, IH.
Qed.

(** The loop over the policies of one security group. *)
Lemma iterator_policies_run group policyPaths s w s' tr w' :
  for_range (Eval_policy group) policyPaths s w = (s', tr, w') ->
  processed tr = map (fun p => (p, group)) policyPaths /\
  (publish_errors tr = [] /\ fetched tr = [] /\ batches_sent tr = [] /\
   evidence_batches tr = [] /\ configured tr = []) /\
  errAcc s'.2 = errAcc (absorb s.2 (errors_of tr)) /\
  evalStatus s'.2 = evalStatus s.2 /\
  (policyPaths = [] -> s'.1 = s.1).
Proof.
  revert s w s' tr w'.
  induction policyPaths as [|p ps IH]; intros s w s' tr w' Hrun.
  - rewrite for_range_nil in Hrun. by injection Hrun as <- <- <-.
  - apply for_range_cons_inv in Hrun as (s1 & t1 & w1 & t2 & Hb & Hrest & ->).
    apply IH in Hrest as (Hp & (Hpe & Hf & Hbs & Hev & Hc) & Herr & Hst & _).
    unfold Eval_policy, generate_results, call, bind, ret in Hb.
    match type of Hb with
    | context [GenerateEvidence ?a ?b ?c ?d ?e ?f ?g ?h ?i] =>
        destruct (GenerateEvidence a b c d e f g h i) as [[evidence err] w0]
    end.
    injection Hb as <- <- <-.
    unfold processed, publish_errors, fetched, batches_sent, evidence_batches,
      configured, errors_of in *.
    rewrite !omap_app, Hp, Hpe, Hf, Hbs, Hev, Hc, absorb_app, Herr, Hst.
    split; [done|]. split; [done|]. split; [|split; [|done]].
    + apply absorb_errAcc_congr. by destruct err.
    + by destruct err.
Qed.

(** One security group: its policies are processed, then one batch of
    evidence is sent; a refusal stops the iteration with the value [Eval]
    returns. *)
Lemma Eval_group_run policyPaths group s w more s' tr w' :
  Eval_group policyPaths group None s w = (more, s', tr, w') ->
  processed tr = map (fun p => (p, group)) policyPaths /\
  (fetched tr = [] /\ configured tr = [] /\ length (batches_sent tr) = 1 /\
   length (evidence_batches tr) = 1 /\
   (policyPaths = [] -> evidence_batches tr = [[]])) /\
  ((more = true /\ publish_errors tr = [] /\ returned s' = returned s /\
    errAcc (gacc s') = errAcc (absorb (gacc s) (errors_of tr)) /\
    evalStatus (gacc s') = evalStatus (gacc s)) \/
   (more = false /\
    exists e tr0 ev msg,
      tr = tr0 ++ [ev; EvLog LevelError msg] /\ publish_error ev = Some e /\
      publish_errors tr0 = [] /\
      returned s' = Some (Some {| EvalStatus := ExecutionStatus_FAILURE |}, Some e))).
Proof.
  unfold Eval_group. intros Hrun.
  apply bind_inv in Hrun as ([evidences acc] & t1 & w1 & t2 & H1 & H2 & ->).
  apply iterator_policies_run in H1
    as (Hp & (Hpe & Hf & Hbs & Hev & Hc) & Herr & Hst & Hnil).
  simpl in Herr, Hst, Hnil.
  apply bind_inv in H2 as (perr & t3 & w3 & t4 & H3 & H4 & ->).
  unfold create_evidence, call in H3.
  destruct (CreateEvidence evidences w1) as [perr0 w1']. injection H3 as <- <- <-.
  destruct perr0 as [pe|].
  - unfold bind, logger_Error, ret in H4. injection H4 as <- <- <- <-.
    unfold processed, publish_errors, fetched, batches_sent, evidence_batches,
      configured, errors_of in *.
    rewrite !omap_app, !length_app, Hp, Hf, Hbs, Hev, Hc. simpl.
    split; [by rewrite app_nil_r|]. split.
    { repeat split. intros Hnone. by rewrite (Hnil Hnone). }
    right. split; [done|].
    exists pe, t1, (EvCreateEvidence evidences (Some pe)), "Failed to send evidences".
    done.
  - unfold ret in H4. injection H4 as <- <- <- <-.
    unfold processed, publish_errors, fetched, batches_sent, evidence_batches,
      configured, errors_of in *.
    rewrite !omap_app, !length_app, Hp, Hpe, Hf, Hbs, Hev, Hc. simpl.
    split; [by rewrite app_nil_r|]. split.
    { repeat split. intros Hnone. by rewrite (Hnil Hnone). }
    left. rewrite !app_nil_r. done.
Qed.

(** The iteration over the security groups: the groups processed are the
    first ones, as many as batches were sent; either every batch was
    accepted and every group was processed, or the last batch was refused
    and nothing came after it. *)
Lemma yield_each_run policyPaths groups s w s' tr w' :
  yield_each (Eval_group policyPaths) groups s w = (s', tr, w') ->
  returned s = None ->
  (fetched tr = [] /\ configured tr = [] /\
   (policyPaths = [] -> Forall (eq []) (evidence_batches tr)) /\
   length (evidence_batches tr) = length (batches_sent tr) /\
   length (batches_sent tr) <= length groups /\
   processed tr =
     group_pairs policyPaths (take (length (batches_sent tr)) groups)) /\
  ((publish_errors tr = [] /\ returned s' = None /\
    length (batches_sent tr) = length groups /\
    errAcc (gacc s') = errAcc (absorb (gacc s) (errors_of tr)) /\
    evalStatus (gacc s') = evalStatus (gacc s)) \/
   (exists e tr0 ev msg,
      tr = tr0 ++ [ev; EvLog LevelError msg] /\ publish_error ev = Some e /\
      publish_errors tr0 = [] /\
      returned s' = Some (Some {| EvalStatus := ExecutionStatus_FAILURE |}, Some e))).
Proof.
  revert s w s' tr w'.
  induction groups as [|group rest IH]; intros s w s' tr w' Hrun Hret.
  { simpl in Hrun. unfold ret in Hrun. injection Hrun as <- <- <-.
    split; [by repeat split | left; by repeat split]. }
  simpl in Hrun.
  apply bind_inv in Hrun as ([more s1] & t1 & w1 & t2 & H1 & H2 & ->).
  apply Eval_group_run in H1 as (Hp & (Hf & Hc & Hb & Hbe & Hev) & Hcase).
  destruct Hcase as [(-> & Hpe & Hr1 & Herr & Hst)|(-> & e & tr0 & ev & msg & -> & Hev' & Hno & Hr1)].
  - rewrite Hret in Hr1.
    destruct (IH _ _ _ _ _ H2 Hr1)
      as ((Hf2 & Hc2 & Hev2 & Hbe2 & Hle2 & Hp2) & Hcase2).
    unfold fetched, configured, evidence_batches, batches_sent, processed,
      publish_errors, errors_of in *.
    rewrite !omap_app, !length_app, Hf, Hc, Hb, Hbe, Hbe2, Hf2, Hc2, Hp, Hp2.
    split.
    { split; [done|]. split; [done|]. split.
      { intros Hnone. apply Forall_app. split; [|by apply Hev2].
        rewrite (Hev Hnone). by repeat constructor. }
      split; [done|]. split; [simpl; lia|]. simpl. done. }
    destruct Hcase2 as [(Hpe2 & Hr2 & Hlen2 & Herr2 & Hst2)
                       |(e & tr0 & ev & msg & -> & Hev2' & Hno2 & Hr2)].
    + left. rewrite Hpe, Hpe2, Hlen2, absorb_app. simpl.
      split; [done|]. split; [done|]. split; [done|]. split; [|congruence].
      rewrite Herr2. by apply absorb_errAcc_congr.
    + right. exists e, (t1 ++ tr0), ev, msg.
      rewrite <- app_assoc. split; [done|]. split; [done|].
      split; [|done]. unfold publish_errors in *. by rewrite omap_app, Hpe, Hno2.
  - unfold ret in H2. injection H2 as <- <- <-.
    unfold fetched, configured, evidence_batches, batches_sent, processed,
      publish_errors, errors_of in *.
    rewrite !app_nil_r, Hf, Hc, Hb, Hbe, Hp. simpl.
    split.
    { split; [done|]. split; [done|]. split.
      { intros Hnone. rewrite (Hev Hnone). by repeat constructor. }
      split; [done|].
      split; [lia|]. unfold group_pairs. simpl. by rewrite ?take_0, ?app_nil_r. }
    right. by exists e, tr0, ev, msg.
Qed.

(** The whole run of the iterator revision. *)
Lemma iterator_Eval_run l request w r tr w' :
  Eval l request w = (r, tr, w') ->
  exists cerr output derr,
    configured tr = [cerr] /\ fetched tr = [(output, derr)] /\
    match derr, output with
    | Some _, _ => batches_sent tr = [] /\ processed tr = []
    | None, None =>
        r = Panicked nil_dereference /\ batches_sent tr = [] /\ processed tr = []
    | None, Some out =>
        ((GetPolicyPaths request = [] -> Forall (eq []) (evidence_batches tr)) /\
         length (evidence_batches tr) = length (batches_sent tr) /\
         length (batches_sent tr) <= length (SecurityGroups out) /\
         processed tr =
           group_pairs (GetPolicyPaths request)
             (take (length (batches_sent tr)) (SecurityGroups out))) /\
        ((publish_errors tr = [] /\
          length (batches_sent tr) = length (SecurityGroups out) /\
          r = Returned
                (Some {| EvalStatus := match cerr with
                                       | Some _ => ExecutionStatus_FAILURE
                                       | None => ExecutionStatus_SUCCESS
                                       end |},
                 errAcc (absorb Acc_init (errors_of tr)))) \/
         (exists e tr0 ev msg,
            tr = tr0 ++ [ev; EvLog LevelError msg] /\ publish_error ev = Some e /\
            publish_errors tr0 = [] /\
            r = Returned (Some {| EvalStatus := ExecutionStatus_FAILURE |}, Some e)))
    end.
Proof.
  unfold Eval. intros Hrun.
  apply bind_inv in Hrun as ([x1 x2] & t1 & w1 & t2 & H1 & H2 & ->).
  unfold load_config, call in H1.
  destruct (LoadDefaultConfig w) as [[cfg cerr] w0]. injection H1 as <- <- <- <-.
  apply bind_inv in H2 as (acc1 & t3 & w3 & t4 & H3 & H4 & ->).
  assert (acc1 = absorb Acc_init (errors_of ([EvLoadDefaultConfig cerr] ++ t3)) /\
          evalStatus acc1 = match cerr with
                            | Some _ => ExecutionStatus_FAILURE
                            | None => ExecutionStatus_SUCCESS
                            end /\
          fetched t3 = [] /\ configured t3 = [] /\ processed t3 = [] /\
          batches_sent t3 = [] /\ evidence_batches t3 = [] /\ publish_errors t3 = [])
    as (Hacc1 & Hst1 & Hf3 & Hc3 & Hp3 & Hb3 & He3 & Hpe3).
  { destruct cerr; unfold bind, logger_Error, ret in H3; by injection H3 as <- <- <-. }
  apply bind_inv in H4 as (res & t5 & w5 & t6 & H5 & H6 & ->).
  unfold getSecurityGroups in H5.
  apply bind_inv in H5 as ([x3 x4] & t7 & w7 & t8 & H7 & H8 & ->).
  unfold describe_security_groups, call in H7.
  match type of H7 with
  | context [DescribeSecurityGroups ?a ?b] =>
      destruct (DescribeSecurityGroups a b) as [[output derr] w3']
  end.
  injection H7 as <- <- <- <-.
  exists cerr, output, derr.
  destruct derr as [de|].
  { apply bind_inv in H8 as ([more s'] & t9 & w9 & t10 & H9 & H10 & ->).
    unfold Eval_group, bind, logger_Error, ret in H9. injection H9 as <- <- <- <-.
    unfold ret in H10. injection H10 as <- <- <-.
    simpl in H6. unfold ret in H6. injection H6 as <- <- <-.
    unfold configured, fetched, batches_sent, processed in *.
    rewrite !omap_app, Hc3, Hf3, Hb3, Hp3. done. }
  destruct output as [out|].
  2:{ unfold ret in H8. injection H8 as <- <- <-.
      simpl in H6. unfold ret in H6. injection H6 as <- <- <-.
      unfold configured, fetched, batches_sent, processed in *.
      rewrite !omap_app, Hc3, Hf3, Hb3, Hp3. done. }
  apply bind_inv in H8 as (s' & t9 & w9 & t10 & H9 & H10 & ->).
  unfold ret in H10. injection H10 as <- <- <-.
  apply yield_each_run in H9 as ((Hf & Hc & Hev & Hbe & Hle & Hp) & Hcase); [|done].
  simpl in Hcase.
  assert (configured ([EvLoadDefaultConfig cerr] ++ t3 ++
                      ([EvDescribeSecurityGroups (Some out) None] ++ t9 ++ []) ++ t6)
          = [cerr] /\
          fetched ([EvLoadDefaultConfig cerr] ++ t3 ++
                   ([EvDescribeSecurityGroups (Some out) None] ++ t9 ++ []) ++ t6)
          = [(Some out, None)] /\
          t6 = []) as (Hconf & Hfet & ->).
  { assert (t6 = []) as ->.
    { simpl in H6. destruct (returned s'); unfold ret in H6; by injection H6 as <- <- <-. }
    unfold configured, fetched in *. rewrite !omap_app, Hc3, Hf3, Hc, Hf. done. }
  split; [done|]. split; [done|].
  rewrite !app_nil_r.
  unfold processed, batches_sent, evidence_batches, publish_errors in *.
  rewrite !omap_app, Hp3, Hb3, He3, Hpe3. simpl.
  split; [done|].
  destruct Hcase as [(Hpe & Hr & Hlen & Herr & Hst)
                    |(e & tr0 & ev & msg & -> & Hev' & Hno & Hr)].
  - left. split; [done|]. split; [done|].
    simpl in H6. rewrite Hr in H6. unfold ret in H6. injection H6 as <- <-.
    rewrite Hst, Hst1. f_equal. f_equal.
    rewrite Herr, Hacc1, <- absorb_app. unfold errors_of. rewrite !omap_app.
    destruct cerr; simpl; by rewrite <- ?app_assoc.
  - right. simpl in H6. rewrite Hr in H6. unfold ret in H6. injection H6 as <- <-.
    exists e, ([EvLoadDefaultConfig cerr] ++ t3 ++
               [EvDescribeSecurityGroups (Some out) None] ++ tr0), ev, msg.
    rewrite <- !app_assoc. split; [done|]. split; [done|]. split; [|done].
    unfold publish_errors in *. by rewrite !omap_app, Hpe3, Hno.
Qed.

End IteratorRunExtras.

Section IteratorTheorems.
Import proto Part_000.

Lemma no_batches {E : Externals} (tr : list Event) :
  batches_sent tr = [] -> publish_errors tr = [] /\ evidence_batches tr = [].
Proof.
  unfold batches_sent, publish_errors, evidence_batches, omap.
  induction tr as [|e tr IH]; [done|].
  destruct e; simpl; try done; intros; auto.
Qed.

(** X8.  A run of the iterator revision whose provider call succeeds and
    whose batches are all accepted hands every (policy, security group)
    pair to the processor, in order, and sends one batch of evidence per
    security group.  It returns a joined error in which every error of the
    run is found, but it reports FAILURE only if loading the configuration
    failed: errors of the policy processor leave the status at SUCCESS. *)
Theorem iterator_run_reports_processor_errors_without_failure :
  forall (E : Externals) l request w out,
    fetched (Eval l request w).1.2 = [(Some out, None)] ->
    publish_errors (Eval l request w).1.2 = [] ->
    processed (Eval l request w).1.2 =
      group_pairs (GetPolicyPaths request) (SecurityGroups out) /\
    length (batches_sent (Eval l request w).1.2) = length (SecurityGroups out) /\
    exists status err,
      (Eval l request w).1.1 = Returned (Some {| EvalStatus := status |}, err) /\
      (status = ExecutionStatus_FAILURE <->
         exists e, configured (Eval l request w).1.2 = [Some e]) /\
      (forall e, e ∈ errors_of (Eval l request w).1.2 ->
         exists joined, err = Some joined /\ contains_error joined e).
Proof.
  intros E l request w out.
  destruct (Eval l request w) as [[r tr] w'] eqn:Hrun. simpl.
  destruct (iterator_Eval_run _ _ _ _ _ _ Hrun) as (cerr & output & derr & Hc & Hf & Hcase).
  intros Hf' Hpe. rewrite Hf in Hf'. injection Hf' as -> ->.
  destruct Hcase
    as ((_ & _ & _ & Hp) & [(_ & Hlen & ->)|(e & tr0 & ev & msg & -> & Hev & _)]).
  - rewrite Hlen, firstn_all in Hp. split; [done|]. split; [done|].
    eexists _, _. split; [reflexivity|]. split.
    + rewrite Hc. destruct cerr as [ce|]; split; try done.
      * intros _. by exists ce.
      * intros [e [=]].
    + intros e He. by apply absorb_contains.
  - exfalso. unfold publish_errors in Hpe. rewrite omap_app in Hpe.
    simpl in Hpe. rewrite Hev in Hpe. by destruct (omap publish_error tr0).
Qed.

(** X9.  In the iterator revision a refused batch of evidence ends the run:
    [Eval] returns FAILURE and the refusal, the refused call and the log
    line about it are the last events, and the security groups processed
    are the first ones, as many as batches were sent. *)
Theorem iterator_refused_batch_ends_the_run :
  forall (E : Externals) l request w e,
    e ∈ publish_errors (Eval l request w).1.2 ->
    (Eval l request w).1.1 =
      Returned (Some {| EvalStatus := ExecutionStatus_FAILURE |}, Some e) /\
    (exists tr0 ev msg,
       (Eval l request w).1.2 = tr0 ++ [ev; EvLog LevelError msg] /\
       publish_error ev = Some e /\ publish_errors tr0 = []) /\
    exists out,
      fetched (Eval l request w).1.2 = [(Some out, None)] /\
      processed (Eval l request w).1.2 =
        group_pairs (GetPolicyPaths request)
          (take (length (batches_sent (Eval l request w).1.2)) (SecurityGroups out)).
Proof.
  intros E l request w e.
  destruct (Eval l request w) as [[r tr] w'] eqn:Hrun. simpl.
  destruct (iterator_Eval_run _ _ _ _ _ _ Hrun) as (cerr & output & derr & Hc & Hf & Hcase).
  intros Hin.
  destruct derr as [de|].
  { destruct Hcase as (Hb & _). apply no_batches in Hb as (Hpe & _).
    rewrite Hpe in Hin. set_solver. }
  destruct output as [out|].
  2:{ destruct Hcase as (_ & Hb & _). apply no_batches in Hb as (Hpe & _).
      rewrite Hpe in Hin. set_solver. }
  destruct Hcase
    as ((_ & _ & _ & Hp) & [(Hpe & _)|(e' & tr0 & ev & msg & -> & Hev & Hno & ->)]).
  { rewrite Hpe in Hin. set_solver. }
  assert (e = e') as <-.
  { unfold publish_errors in *. rewrite omap_app, Hno in Hin. simpl in Hin.
    rewrite Hev in Hin. by apply list_elem_of_singleton in Hin. }
  split; [done|]. split; [by exists tr0, ev, msg|]. by exists out.
Qed.

(** X10.  [Eval] of the iterator revision returns in every run but one: it
    panics exactly when the provider hands back neither an output nor an
    error. *)
Theorem iterator_panics_only_without_an_answer :
  forall (E : Externals) l request w,
    (exists reason, (Eval l request w).1.1 = Panicked reason) <->
    fetched (Eval l request w).1.2 = [(None, None)].
Proof.
  intros E l request w.
  pose proof (Eval_returns_on_fetch_failure l request w) as Hfail.
  destruct (Eval l request w) as [[r tr] w'] eqn:Hrun. simpl in *.
  destruct (iterator_Eval_run _ _ _ _ _ _ Hrun) as (cerr & output & derr & Hc & Hf & Hcase).
  rewrite Hf. destruct derr as [de|].
  { destruct (Hfail output de Hf) as (j & -> & _).
    split; [by intros [reason [=]] | by intros [=]]. }
  destruct output as [out|].
  - destruct Hcase as (_ & [(_ & _ & ->)|(e & tr0 & ev & msg & _ & _ & _ & ->)]);
      (split; [by intros [reason [=]] | by intros [=]]).
  - destruct Hcase as (-> & _). split; [done|]. intros _. by eexists.
Qed.

(** X12.  Without policies the iterator revision never calls the
    processor but still sends a batch of evidence for each security group
    it reaches, and every such batch is empty. *)
Theorem iterator_sends_empty_batches_without_policies :
  forall (E : Externals) l request w,
    GetPolicyPaths request = [] ->
    processed (Eval l request w).1.2 = [] /\
    Forall (eq []) (evidence_batches (Eval l request w).1.2) /\
    forall out,
      fetched (Eval l request w).1.2 = [(Some out, None)] ->
      publish_errors (Eval l request w).1.2 = [] ->
      length (evidence_batches (Eval l request w).1.2) = length (SecurityGroups out).
Proof.
  intros E l request w Hnone.
  destruct (Eval l request w) as [[r tr] w'] eqn:Hrun. simpl.
  destruct (iterator_Eval_run _ _ _ _ _ _ Hrun) as (cerr & output & derr & Hc & Hf & Hcase).
  rewrite Hf. destruct derr as [de|].
  { destruct Hcase as (Hb & Hp). apply no_batches in Hb as (_ & ->).
    split; [done|]. split; [constructor|]. by intros out [=]. }
  destruct output as [out|].
  2:{ destruct Hcase as (_ & Hb & Hp). apply no_batches in Hb as (_ & ->).
      split; [done|]. split; [constructor|]. by intros out [=]. }
  destruct Hcase as ((Hev & Hbe & Hle & Hp) & Hcase).
  split.
  { rewrite Hp, Hnone. apply length_zero_iff_nil.
    rewrite length_group_pairs. simpl. lia. }
  split; [by apply Hev|].
  intros out' [= <-] Hpe. rewrite Hbe.
  destruct Hcase as [(_ & Hlen & _)|(e & tr0 & ev & msg & -> & Hev' & _)]; [done|].
  exfalso. unfold publish_errors in Hpe. rewrite omap_app in Hpe.
  simpl in Hpe. rewrite Hev' in Hpe. by destruct (omap publish_error tr0).
Qed.

Lemma recorder_yield_each {E : Externals} keep groups seen w :
  yield_each (recorder keep) groups seen w =
    (seen ++ map (fun g => (g, None)) (upto_first_stop keep groups), [], w).
Proof.
  revert seen. induction groups as [|g rest IH]; intros seen; simpl.
  - by rewrite app_nil_r.
  - unfold bind, recorder, ret. simpl. destruct (keep g).
    + rewrite IH. simpl. by rewrite <- app_assoc.
    + done.
Qed.

(** X13.  [getSecurityGroups] asks the provider once.  When the call fails
    it yields once, the zero security group with the error; otherwise it
    yields the security groups in the order the provider listed them, each
    with a nil error, up to and including the first one at which the
    consumer stops, and none after it. *)
Theorem getSecurityGroups_yields_in_order_until_stopped :
  forall (E : Externals) client keep seen w,
    getSecurityGroups client (recorder keep) seen w =
      (match (DescribeSecurityGroups client w).1.2,
             (DescribeSecurityGroups client w).1.1 with
       | Some e, _ => Returned (seen ++ [(zero_SecurityGroup, Some e)])
       | None, None => Panicked nil_dereference
       | None, Some out =>
           Returned (seen ++ map (fun g => (g, None))
                               (upto_first_stop keep (SecurityGroups out)))
       end,
       [EvDescribeSecurityGroups (DescribeSecurityGroups client w).1.1
          (DescribeSecurityGroups client w).1.2],
       (DescribeSecurityGroups client w).2).
Proof.
  intros E client keep seen w.
  unfold getSecurityGroups, describe_security_groups, call, bind.
  destruct (DescribeSecurityGroups client w) as [[out derr] w1]. simpl.
  destruct derr as [e|]; [done|].
  destruct out as [out|]; [|done].
  by rewrite recorder_yield_each.
Qed.

(** X14.  For every security group, the identifiers the iterator revision
    hands to the processor resolve: the component its inventory item
    implements is the component it declares, the component subject names
    that component, and the inventory subject names the inventory item. *)
Theorem iterator_references_resolve :
  forall group : SecurityGroup,
    references_resolve components (inventory group) (subjects group).
Proof.
  intros group. unfold references_resolve, components, inventory, subjects.
  split; repeat constructor.
Qed.
End IteratorTheorems.

(** * The order of the batches in the revision [part_001] *)
Section BatchOrder.
Context {E : Externals}.
Import proto Part_001.

Lemma findings_after_accepted_app (a b : list Event) :
  Forall no_batch a -> findings_after_accepted false b = true ->
  findings_after_accepted false (a ++ b) = true.
Proof.
  intros Ha Hb. induction Ha as [|e a He _ IH]; [done|].
  destruct e; simpl in *; done.
Qed.

Lemma policies_send_nothing labels subjects group policyPaths s w :
  Forall no_batch
    (for_range (Eval_policy labels subjects group) policyPaths s w).1.2.
Proof.
  revert s w. induction policyPaths as [|p ps IH]; intros s w; [constructor|].
  destruct (for_range (Eval_policy labels subjects group) (p :: ps) s w)
    as [[s' tr] w'] eqn:Hrun.
  apply for_range_cons_inv in Hrun as (s1 & t1 & w1 & t2 & Hb & Hrest & ->).
  simpl. apply Forall_app. split.
  - unfold Eval_policy, generate_results, call, bind, ret in Hb.
    match type of Hb with
    | context [GenerateResults ?a ?b ?c ?d ?e ?f ?g ?h] =>
        destruct (GenerateResults a b c d e f g h) as [[[obs finds] err] w0]
    end.
    injection Hb as <- <- <-. by repeat constructor.
  - specialize (IH s1 w1). by rewrite Hrest in IH.
Qed.

Lemma Eval_groups_order policyPaths groups acc w :
  findings_after_accepted false (Eval_groups policyPaths groups acc w).1.2 = true.
Proof.
  revert acc w. induction groups as [|group rest IH]; intros acc w; [done|].
  destruct (Eval_groups policyPaths (group :: rest) acc w) as [[r tr] w'] eqn:Hrun.
  simpl in *.
  destruct (res_bind (group_labels group) _) as [[labels subjects]|reason].
  2:{ unfold ret in Hrun. by injection Hrun as <- <- <-. }
  apply bind_inv in Hrun as (s & t1 & w1 & t2 & H1 & H2 & ->).
  pose proof (policies_send_nothing labels subjects group policyPaths
                {| observations := []; findings := []; pacc := acc |} w) as Hq.
  rewrite H1 in Hq. simpl in Hq.
  apply findings_after_accepted_app; [done|].
  apply bind_inv in H2 as (oerr & t3 & w3 & t4 & H3 & H4 & ->).
  unfold create_observations, call in H3.
  destruct (CreateObservations (observations s) w1) as [oerr0 w1'].
  injection H3 as <- <- <-.
  destruct oerr0 as [oe|].
  { unfold bind, logger_Error, ret in H4. by injection H4 as <- <- <-. }
  apply bind_inv in H4 as (ferr & t5 & w5 & t6 & H5 & H6 & ->).
  unfold create_findings, call in H5.
  match type of H5 with
  | context [CreateFindings ?a ?b] => destruct (CreateFindings a b) as [ferr0 w3']
  end.
  injection H5 as <- <- <-.
  destruct ferr0 as [fe|].
  { unfold bind, logger_Error, ret in H6. by injection H6 as <- <- <-. }
  simpl. specialize (IH (pacc s) w3'). by rewrite H6 in IH.
Qed.
End BatchOrder.

(** X15.  In the revision [part_001] the findings of a security group are
    sent only right after its observations were sent and accepted: every
    call of [CreateFindings] in a run comes immediately after a call of
    [CreateObservations] that answered without error. *)
Theorem findings_are_sent_after_accepted_observations :
  forall (E : Externals) l request w,
    findings_after_accepted false (Part_001.Eval l request w).1.2 = true.
Proof.
  intros E l request w.
  destruct (Part_001.Eval l request w) as [[r tr] w'] eqn:Hrun. simpl.
  unfold Part_001.Eval in Hrun.
  apply bind_inv in Hrun as ([x1 x2] & t1 & w1 & t2 & H1 & H2 & ->).
  unfold load_config, call in H1.
  destruct (LoadDefaultConfig w) as [[cfg cerr] w0]. injection H1 as <- <- <- <-.
  apply bind_inv in H2 as (acc1 & t3 & w3 & t4 & H3 & H4 & ->).
  apply bind_inv in H4 as ([x3 x4] & t5 & w5 & t6 & H5 & H6 & ->).
  unfold describe_security_groups, call in H5.
  match type of H5 with
  | context [DescribeSecurityGroups ?a ?b] =>
      destruct (DescribeSecurityGroups a b) as [[output derr] w3']
  end.
  injection H5 as <- <- <- <-.
  apply bind_inv in H6 as (acc2 & t7 & w7 & t8 & H7 & H8 & ->).
  assert (Forall no_batch t3 /\ Forall no_batch t7) as (Hq3 & Hq7).
  { destruct cerr, derr; unfold bind, logger_Error, ret in H3, H7;
      injection H3 as <- <- <-; injection H7 as <- <- <-; by repeat constructor. }
  apply (findings_after_accepted_app [_]); [by repeat constructor|].
  apply findings_after_accepted_app; [done|].
  apply (findings_after_accepted_app [_]); [by repeat constructor|].
  apply findings_after_accepted_app; [done|].
  destruct output as [out|].
  - pose proof (Eval_groups_order (proto.GetPolicyPaths request) (SecurityGroups out)
                  acc2 w7) as Ho.
    by rewrite H8 in Ho.
  - unfold ret in H8. by injection H8 as <- <- <-.
Qed.

(** The order is a real constraint: a batch of findings with nothing before
    it breaks it, and the run on the scripted world, which sends two
    batches of each kind, keeps it. *)
Example findings_after_accepted_examples :
  findings_after_accepted (E := Scripted.externals) false
    [EvCreateFindings [] None] = false /\
  findings_after_accepted (E := Scripted.externals) false
    [EvCreateObservations [] (Some Scripted.publish_error); EvCreateFindings [] None]
    = false /\
  length (batches_sent (Part_001.Eval (E := Scripted.externals) Scripted.plugin
                          Scripted.request Scripted.quiet_world).1.2) = 4.
Proof. repeat split; vm_compute; reflexivity. Qed.

(** * The extra properties on the scripted worlds *)

(** X5 on the scripted world: two security groups, two policies. *)
Lemma every_pair_is_evaluated_once_witness :
  length (executed (Main_go.Eval (E := Scripted.externals) Scripted.plugin
                      Scripted.request Scripted.busy_world).1.2) = 2 * 2 /\
  length (published (Main_go.Eval (E := Scripted.externals) Scripted.plugin
                       Scripted.request Scripted.busy_world).1.2) <=
    length (evaluated (Main_go.Eval (E := Scripted.externals) Scripted.plugin
                         Scripted.request Scripted.busy_world).1.2).
Proof.
  destruct (every_pair_is_evaluated_once Scripted.externals Scripted.plugin
              Scripted.request Scripted.busy_world
              {| SecurityGroups := [Scripted.sg "sg-1"; Scripted.sg "sg-2"] |} None)
    as (Hlen & _ & Hle1 & Hle2).
  { vm_compute; reflexivity. }
  split; [exact Hlen | exact Hle1].
Defined.

(** X8 on the scripted world whose processor fails on every pair. *)
Lemma iterator_run_reports_processor_errors_without_failure_witness :
  processed (Part_000.Eval (E := Scripted.externals) Scripted.plugin Scripted.request
               Scripted.evaluation_fails).1.2 =
    group_pairs ["policies/a"; "policies/b"] [Scripted.sg "sg-1"] /\
  exists err,
    (Part_000.Eval (E := Scripted.externals) Scripted.plugin Scripted.request
       Scripted.evaluation_fails).1.1 =
      Returned (Some {| proto.EvalStatus := proto.ExecutionStatus_SUCCESS |}, Some err) /\
    contains_error err Scripted.evaluation_error.
Proof.
  destruct (iterator_run_reports_processor_errors_without_failure Scripted.externals
              Scripted.plugin Scripted.request Scripted.evaluation_fails
              {| SecurityGroups := [Scripted.sg "sg-1"] |})
    as (Hp & _ & status & err & Hr & _ & Herr).
  { vm_compute; reflexivity. }
  { vm_compute; reflexivity. }
  split; [exact Hp|].
  destruct (Herr Scripted.evaluation_error) as (joined & -> & Hc).
  { vm_compute. constructor. }
  exists joined. split; [|exact Hc].
  rewrite Hr. f_equal. f_equal. f_equal.
  assert ((Part_000.Eval (E := Scripted.externals) Scripted.plugin Scripted.request
             Scripted.evaluation_fails).1.1 =
          Returned (Some {| proto.EvalStatus := proto.ExecutionStatus_SUCCESS |},
                    Some (JoinError [JoinError [Scripted.evaluation_error];
                                     Scripted.evaluation_error]))) as Hv
    by (vm_compute; reflexivity).
  rewrite Hr in Hv. by injection Hv as ->.
Defined.

(** X9 on the scripted world whose agent refuses the evidence. *)
Lemma iterator_refused_batch_ends_the_run_witness :
  (Part_000.Eval (E := Scripted.externals) Scripted.plugin Scripted.request
     Scenarios.evidence_refused).1.1 =
    Returned (Some {| proto.EvalStatus := proto.ExecutionStatus_FAILURE |},
              Some Scripted.publish_error) /\
  processed (Part_000.Eval (E := Scripted.externals) Scripted.plugin Scripted.request
               Scenarios.evidence_refused).1.2 =
    [("policies/a", Scripted.sg "sg-1"); ("policies/b", Scripted.sg "sg-1")].
Proof.
  destruct (iterator_refused_batch_ends_the_run Scripted.externals Scripted.plugin
              Scripted.request Scenarios.evidence_refused Scripted.publish_error)
    as (Hr & _ & _).
  { vm_compute. constructor. }
  split; [exact Hr | vm_compute; reflexivity].
Defined.

(** X11.  In the iterator revision a failed provider call does not crash
    the run: [Eval] returns FAILURE with a joined error in which the error
    of the provider is found, and also the error of the configuration if
    loading it had failed before; no security group is processed and
    nothing is sent. *)
Theorem iterator_returns_failure_when_the_provider_fails :
  forall (E : Externals) l request w output e,
    fetched (Part_000.Eval l request w).1.2 = [(output, Some e)] ->
    exists joined,
      (Part_000.Eval l request w).1.1 =
        Returned (Some {| proto.EvalStatus := proto.ExecutionStatus_FAILURE |},
                  Some joined) /\
      contains_error joined e /\
      (forall ce, configured (Part_000.Eval l request w).1.2 = [Some ce] ->
                  contains_error joined ce) /\
      processed (Part_000.Eval l request w).1.2 = [] /\
      batches_sent (Part_000.Eval l request w).1.2 = [].
Proof.
  intros E l request w output e.
  destruct (Part_000.Eval l request w) as [[r tr] w'] eqn:Hrun. simpl.
  unfold Part_000.Eval in Hrun.
  apply bind_inv in Hrun as ([x1 x2] & t1 & w1 & t2 & H1 & H2 & ->).
  unfold load_config, call in H1.
  destruct (LoadDefaultConfig w) as [[cfg cerr] w0]. injection H1 as <- <- <- <-.
  apply bind_inv in H2 as (acc1 & t3 & w3 & t4 & H3 & H4 & ->).
  assert (fetched t3 = [] /\ processed t3 = [] /\ batches_sent t3 = [] /\
          configured t3 = [] /\
          (forall ce, cerr = Some ce ->
             exists j, errAcc acc1 = Some j /\ contains_error j ce))
    as (Hf3 & Hp3 & Hb3 & Hc3 & Hacc).
  { destruct cerr as [ce|]; unfold bind, logger_Error, ret in H3;
      injection H3 as <- <- <-; repeat split; try done.
    intros ce' [= <-]. exists (JoinError [ce]). split; [done|].
    eapply contains_joined; [|apply contains_self]. set_solver. }
  apply bind_inv in H4 as (res & t5 & w5 & t6 & H5 & H6 & ->).
  unfold Part_000.getSecurityGroups in H5.
  apply bind_inv in H5 as ([x3 x4] & t7 & w7 & t8 & H7 & H8 & ->).
  unfold describe_security_groups, call in H7.
  match type of H7 with
  | context [DescribeSecurityGroups ?a ?b] =>
      destruct (DescribeSecurityGroups a b) as [[out derr] w3']
  end.
  injection H7 as <- <- <- <-.
  unfold fetched, processed, batches_sent, configured in *.
  rewrite !omap_app, Hf3, Hp3, Hb3, Hc3. simpl.
  intros [= -> ->].
  apply bind_inv in H8 as ([more s'] & t9 & w9 & t10 & H9 & H10 & ->).
  unfold Part_000.Eval_group, bind, logger_Error, ret in H9.
  injection H9 as <- <- <- <-.
  unfold ret in H10. injection H10 as <- <- <-.
  simpl in H6. unfold ret in H6. injection H6 as <- <- <-.
  destruct (errors_Join_some (errAcc acc1) e) as (j & Hj & Hc & Hold).
  exists j. simpl. rewrite <- Hj. split; [done|]. split; [done|].
  split; [|done].
  intros ce [= ->]. destruct (Hacc ce eq_refl) as (j0 & Hj0 & Hc0).
  eapply contains_error_trans; [by apply Hold|done].
Qed.

(** X11 on the scripted world whose provider call fails. *)
Lemma iterator_returns_failure_when_the_provider_fails_witness :
  exists joined,
    (Part_000.Eval (E := Scripted.externals) Scripted.plugin Scripted.request
       Scripted.fetch_fails).1.1 =
      Returned (Some {| proto.EvalStatus := proto.ExecutionStatus_FAILURE |},
                Some joined) /\
    contains_error joined Scripted.fetch_error /\
    processed (Part_000.Eval (E := Scripted.externals) Scripted.plugin
                 Scripted.request Scripted.fetch_fails).1.2 = [].
Proof.
  destruct (iterator_returns_failure_when_the_provider_fails Scripted.externals
              Scripted.plugin Scripted.request Scripted.fetch_fails None
              Scripted.fetch_error)
    as (joined & Hr & Hc & _ & Hp & _).
  { vm_compute; reflexivity. }
  by exists joined.
Defined.

(** X12 on the scripted world with two security groups and no policy. *)
Lemma iterator_sends_empty_batches_without_policies_witness :
  processed (Part_000.Eval (E := Scripted.externals) Scripted.plugin
               Scenarios.no_policies Scripted.quiet_world).1.2 = [] /\
  evidence_batches (Part_000.Eval (E := Scripted.externals) Scripted.plugin
                      Scenarios.no_policies Scripted.quiet_world).1.2 = [[]; []].
Proof.
  destruct (iterator_sends_empty_batches_without_policies Scripted.externals
              Scripted.plugin Scenarios.no_policies Scripted.quiet_world eq_refl)
    as (Hp & _ & _).
  split; [exact Hp | vm_compute; reflexivity].
Defined.
